(** * Artist recommender: a shallow embedding of [Scripts/artist_recommender.py]

    The script holds one function, [get_recommendations(df)], written on top
    of pandas.  The development below embeds it as Rocq functions over a small
    model of the pandas objects it touches, and proves the properties of the
    design document against that embedding.

    Conventions of the model:
    - a cell of a frame is a [value]: null ([None] or [NaN], which pandas
      treats alike in [notna], [fillna] and [to_numeric]), a Python [str], or
      a finite number; finite floats are idealised as rationals, and the
      results of [numpy.log10] as reals extended with [-inf] and [NaN], with
      no rounding;
    - a Python [str] is a [string] whose characters are code points; the
      Unicode tables behind [str.lower], [\w], [\s] and [str.strip], and the
      numeric parser behind [pandas.to_numeric], are not part of the script:
      they are the fields of the class [PyLib], and every theorem holds for
      all instances;
    - exceptions are values of [exception], threaded with a result monad;
    - the one statement that writes to the caller's frame is kept as explicit
      state: [get_recommendations] returns the caller's frame as it is after
      the call, together with the outcome. *)

From Stdlib Require Import List String Ascii Bool Arith Lia.
From Stdlib Require Import ZArith QArith Qreals Reals Lra.
From Stdlib Require Import Permutation Sorted.
Import ListNotations.

Local Open Scope string_scope.
Local Open Scope list_scope.

Set Implicit Arguments.

(** ** Python and pandas values *)

(** One cell of a frame. *)
Inductive value : Type :=
| VNull
| VStr (s : string)
| VNum (q : Q).

Definition notna (v : value) : bool :=
  match v with VNull => false | _ => true end.

Definition is_str (v : value) : bool :=
  match v with VStr _ => true | _ => false end.

(** Python's [==] on cells, as used for hashing keys: strings by content,
    numbers by numeric value.  Nulls are taken equal to each other. *)
Definition value_eqb (a b : value) : bool :=
  match a, b with
  | VNull, VNull => true
  | VStr s, VStr t => String.eqb s t
  | VNum p, VNum q => Qeq_bool p q
  | _, _ => false
  end.

(** The library functions the script calls on text. *)
Class PyLib : Type := {
  (** [str.lower] *)
  str_lower : string -> string;
  (** the class [\s] of [re], which is also the whitespace of [str.strip] *)
  is_space : ascii -> bool;
  (** the class [\w] of [re] *)
  is_word : ascii -> bool;
  (** what [pandas.to_numeric] makes of one string; [None] when the string
      is not a number *)
  parse_number : string -> option Q
}.

(** Exceptions the script can raise, and the result monad. *)
Inductive exception : Type :=
| KeyError (missing : list string)
| AttributeError
| TypeError.

Inductive result (A : Type) : Type :=
| Ok (a : A)
| Raise (e : exception).

Arguments Ok {A} a.
Arguments Raise {A} e.

Definition bind {A B : Type} (m : result A) (k : A -> result B) : result B :=
  match m with
  | Ok a => k a
  | Raise e => Raise e
  end.

Notation "x <- m ;; k" := (bind m (fun x => k))
  (at level 61, m at next level, right associativity).

Definition raises {A : Type} (m : result A) : bool :=
  match m with Ok _ => false | Raise _ => true end.

(** ** String functions *)

Section Text.
Context {L : PyLib}.

Fixpoint str_filter (p : ascii -> bool) (s : string) : string :=
  match s with
  | EmptyString => EmptyString
  | String c s' => if p c then String c (str_filter p s') else str_filter p s'
  end.

(** [re.sub(r'[^\w\s]', '', s)] *)
Definition re_sub_punct (s : string) : string :=
  str_filter (fun c => is_word c || is_space c) s.

Fixpoint lstrip (s : string) : string :=
  match s with
  | EmptyString => EmptyString
  | String c s' => if is_space c then lstrip s' else s
  end.

Fixpoint rstrip (s : string) : string :=
  match s with
  | EmptyString => EmptyString
  | String c s' =>
      match rstrip s' with
      | EmptyString => if is_space c then EmptyString else String c EmptyString
      | r => String c r
      end
  end.

(** [str.strip()] *)
Definition strip (s : string) : string := rstrip (lstrip s).

(** [re.split(r',\s*', s)].  [skip] is true while the scan is inside the
    [\s*] of a match; the head of the result is the piece being read. *)
Fixpoint re_split_from (skip : bool) (s : string) : list string :=
  match s with
  | EmptyString => [EmptyString]
  | String c s' =>
      if skip && is_space c then re_split_from true s'
      else if Ascii.eqb c ","%char then EmptyString :: re_split_from true s'
      else match re_split_from false s' with
           | p :: ps => String c p :: ps
           | [] => [String c EmptyString]
           end
  end.

Definition re_split (s : string) : list string := re_split_from false s.

(** [s.split(',')] *)
Fixpoint split_comma (s : string) : list string :=
  match s with
  | EmptyString => [EmptyString]
  | String c s' =>
      if Ascii.eqb c ","%char then EmptyString :: split_comma s'
      else match split_comma s' with
           | p :: ps => String c p :: ps
           | [] => [String c EmptyString]
           end
  end.

(** Lines 11-14. *)
Definition clean_key (text : value) : string :=
  match text with
  | VStr s => strip (re_sub_punct (str_lower s))
  | _ => ""
  end.

End Text.

(** ** Frames *)

Inductive Dtype : Type := object | float64 | int64.

Record Series : Type := mkSeries {
  dtype : Dtype;
  values : list value
}.

(** A frame: the length of its index and its columns, in order. *)
Record DataFrame : Type := mkDataFrame {
  index_len : nat;
  data : list (string * Series)
}.

Definition columns (df : DataFrame) : list string := map fst (data df).

(** [c in df.columns] *)
Definition has_column (df : DataFrame) (c : string) : bool :=
  existsb (String.eqb c) (columns df).

Fixpoint lookup (c : string) (cols : list (string * Series)) : option Series :=
  match cols with
  | [] => None
  | (c', s) :: rest => if String.eqb c c' then Some s else lookup c rest
  end.

Fixpoint assign (c : string) (s : Series) (cols : list (string * Series))
  : list (string * Series) :=
  match cols with
  | [] => [(c, s)]
  | (c', s') :: rest =>
      if String.eqb c c' then (c, s) :: rest else (c', s') :: assign c s rest
  end.

(** [df[c] = v] for a scalar [v]: the column is replaced where it stands, or
    appended, and [v] is broadcast along the index. *)
Definition setitem_scalar (df : DataFrame) (c : string) (v : value) : DataFrame :=
  mkDataFrame (index_len df)
    (assign c (mkSeries object (repeat v (index_len df))) (data df)).

(** One row of the four columns the script works on; [P] is the type of the
    play count, a raw cell before line 24 and a number after it. *)
Record Row (P : Type) : Type := mkRow {
  Artist : value;
  Similar_Artists : value;
  Total_Plays : P;
  Artist_Genres : value
}.

(** The artist-level frame: its rows, and the dtype of its
    [Similar_Artists] column, which the [.str] accessor inspects. *)
Record ArtistFrame (P : Type) : Type := mkArtistFrame {
  Similar_Artists_dtype : Dtype;
  rows : list (Row P)
}.

Definition required : list string :=
  ["Artist"; "Similar_Artists"; "Total_Plays"; "Artist_Genres"].

Definition cell (s : Series) (i : nat) : value := nth i (values s) VNull.

(** [df[['Artist', 'Similar_Artists', 'Total_Plays', 'Artist_Genres']]]:
    a [KeyError] naming the labels that are not columns, or a new frame. *)
Definition getitem_required (df : DataFrame) : result (ArtistFrame value) :=
  match lookup "Artist" (data df), lookup "Similar_Artists" (data df),
        lookup "Total_Plays" (data df), lookup "Artist_Genres" (data df) with
  | Some a, Some s, Some t, Some g =>
      Ok (mkArtistFrame (dtype s)
            (map (fun i => mkRow (cell a i) (cell s i) (cell t i) (cell g i))
                 (seq 0 (index_len df))))
  | _, _, _, _ =>
      Raise (KeyError (filter (fun c => negb (has_column df c)) required))
  end.

(** [drop_duplicates('Artist')]: the first row of each artist is kept. *)
Fixpoint drop_duplicates_from {P : Type} (seen : list value) (l : list (Row P))
  : list (Row P) :=
  match l with
  | [] => []
  | r :: l' =>
      if existsb (value_eqb (Artist r)) seen then drop_duplicates_from seen l'
      else r :: drop_duplicates_from (Artist r :: seen) l'
  end.

Definition drop_duplicates {P : Type} (l : list (Row P)) : list (Row P) :=
  drop_duplicates_from [] l.

(** [Series.unique()]: distinct cells, in order of first appearance. *)
Fixpoint unique_from (seen : list value) (l : list value) : list value :=
  match l with
  | [] => []
  | v :: l' =>
      if existsb (value_eqb v) seen then unique_from seen l'
      else v :: unique_from (v :: seen) l'
  end.

Definition unique (l : list value) : list value := unique_from [] l.

Definition fillna (d : value) (v : value) : value :=
  match v with VNull => d | _ => v end.

(** The [.str] accessor refuses a column whose inferred type is not one of
    string, empty or mixed: any column that is not of dtype [object], and an
    [object] column whose non-null cells are all numbers. *)
Definition str_accessor (s : Series) : result (list value) :=
  match dtype s with
  | object =>
      let present := filter notna (values s) in
      match present with
      | [] => Ok (values s)
      | _ => if existsb is_str present then Ok (values s) else Raise AttributeError
      end
  | _ => Raise AttributeError
  end.

(** ** Numbers of numpy *)

(** The result of [numpy.log10] and of products with it. *)
Inductive npfloat : Type :=
| NaN
| NegInf
| Fin (r : R).

Definition np_log10 (x : R) : npfloat :=
  if Rlt_dec 0 x then Fin (ln x / ln 10)%R
  else if Req_dec_T x 0 then NegInf
  else NaN.

(** An integer count times a float. *)
Definition np_mul (n : nat) (y : npfloat) : npfloat :=
  match y with
  | Fin r => Fin (INR n * r)%R
  | NegInf => match n with O => NaN | S _ => NegInf end
  | NaN => NaN
  end.

Definition isnan (y : npfloat) : bool :=
  match y with NaN => true | _ => false end.

(** [a < b] on floats: false as soon as one side is [NaN]. *)
Definition np_lt (a b : npfloat) : Prop :=
  match a, b with
  | Fin x, Fin y => (x < y)%R
  | NegInf, Fin _ => True
  | _, _ => False
  end.

(** [a <= b] on floats. *)
Definition np_le (a b : npfloat) : Prop :=
  match a, b with
  | Fin x, Fin y => (x <= y)%R
  | NegInf, Fin _ => True
  | NegInf, NegInf => True
  | _, _ => False
  end.

Definition np_leb (a b : npfloat) : bool :=
  match a, b with
  | Fin x, Fin y => if Rle_dec x y then true else false
  | NegInf, Fin _ => true
  | NegInf, NegInf => true
  | _, _ => false
  end.

(** ** Sorting *)

Section Sorting.
Variable A : Type.

(** Stable insertion sort for a boolean order [before]: [x] goes in front
    of the first element it may precede. *)
Variable before : A -> A -> bool.

Fixpoint insert (x : A) (l : list A) : list A :=
  match l with
  | [] => [x]
  | y :: l' => if before x y then x :: l else y :: insert x l'
  end.

Fixpoint isort (l : list A) : list A :=
  match l with
  | [] => []
  | x :: l' => insert x (isort l')
  end.
End Sorting.

(** ** The pipeline of [get_recommendations] *)

(** A group of [recs] after [groupby('Similar_Artists').agg(...)]. *)
Record Group : Type := mkGroup {
  g_Similar_Artists : value;
  g_Related_Library_Artists : string;
  g_Recommendation_Count : nat;
  g_Total_Play_Count : Q;
  g_Related_Artist_Genres : string
}.

(** A row of the returned frame, columns in [col_order]. *)
Record Recommendation : Type := mkRecommendation {
  Missing_Artist : value;
  Related_Library_Artists : string;
  Recommendation_Count : nat;
  Related_Library_Artists_Total_Play_Count : Q;
  Priority_Score : npfloat;
  Related_Artist_Genres : string
}.

(** Order of the group keys; the keys of [recs] are all strings. *)
Definition value_leb (a b : value) : bool :=
  match a, b with
  | VNull, _ => true
  | _, VNull => false
  | VNum p, VNum q => Qle_bool p q
  | VNum _, VStr _ => true
  | VStr _, VNum _ => false
  | VStr s, VStr t => String.leb s t
  end.

Definition isin (k : string) (keys : list string) : bool :=
  existsb (String.eqb k) keys.

(** What [", ".join] accepts: a [TypeError] on the first item that is not
    a [str]. *)
Fixpoint strings_of (vs : list value) : result (list string) :=
  match vs with
  | [] => Ok []
  | VStr s :: rest => l <- strings_of rest ;; Ok (s :: l)
  | _ :: _ => Raise TypeError
  end.

Fixpoint mapM {A B : Type} (f : A -> result B) (l : list A) : result (list B) :=
  match l with
  | [] => Ok []
  | a :: l' => b <- f a ;; bs <- mapM f l' ;; Ok (b :: bs)
  end.

(** [Series.sum()] of a numeric column. *)
Definition sum (l : list Q) : Q := fold_left Qplus l 0%Q.

Section Pipeline.
Context {L : PyLib}.

(** [pd.to_numeric(x, errors='coerce')] on one cell; [None] stands for the
    [NaN] of a cell that is not a number. *)
Definition to_numeric (v : value) : option Q :=
  match v with
  | VNull => None
  | VNum q => Some q
  | VStr s => parse_number s
  end.

Definition fillna0 (o : option Q) : Q :=
  match o with Some q => q | None => 0%Q end.

(** Lines 24-25 on one row. *)
Definition coerce (r : Row value) : Row Q :=
  mkRow (Artist r) (Similar_Artists r)
        (fillna0 (to_numeric (Total_Plays r)))
        (fillna (VStr "") (Artist_Genres r)).

(** Lines 21-27: [artist_df]. *)
Definition artist_level (sel : ArtistFrame value) : ArtistFrame Q :=
  mkArtistFrame (Similar_Artists_dtype sel)
    (filter (fun r => notna (Artist r))
            (map coerce (drop_duplicates (rows sel)))).

(** Line 30: [library_clean]. *)
Definition library_keys (artist_df : list (Row Q)) : list string :=
  nodup string_dec (map (fun r => clean_key (Artist r)) artist_df).

(** [.str.split(r',\s*')] on one cell: a list for a string, [NaN]
    otherwise. *)
Definition str_split (v : value) : option (list string) :=
  match v with
  | VStr s => Some (re_split s)
  | _ => None
  end.

Definition with_similar (r : Row Q) (v : value) : Row Q :=
  mkRow (Artist r) v (Total_Plays r) (Artist_Genres r).

(** [explode('Similar_Artists')] on one row: one row per item of a list,
    one row holding null for an empty list or a cell that is not a list. *)
Definition explode_row (r : Row Q) : list (Row Q) :=
  match str_split (Similar_Artists r) with
  | Some (p :: ps) => map (fun x => with_similar r (VStr x)) (p :: ps)
  | _ => [with_similar r VNull]
  end.

(** Line 33, after the accessor has accepted the column. *)
Definition expand (artist_df : list (Row Q)) : list (Row Q) :=
  flat_map explode_row artist_df.

(** Line 34. *)
Definition named (r : Row Q) : bool :=
  notna (Similar_Artists r) && negb (value_eqb (Similar_Artists r) (VStr "")).

(** Lines 37-40: the key of the suggestion is computed and looked up in
    [library_clean]; the column [suggested_key] is read nowhere else. *)
Definition suggested_key (r : Row Q) : string := clean_key (Similar_Artists r).

Definition fuzzy_filter (library_clean : list string) (recs : list (Row Q))
  : list (Row Q) :=
  filter (fun r => negb (isin (suggested_key r) library_clean)) recs.

(** Lines 33-40: [recs]. *)
Definition candidates (artist_df : list (Row Q)) : list (Row Q) :=
  fuzzy_filter (library_keys artist_df) (filter named (expand artist_df)).

(** Python's [set.update] on a set kept in insertion order. *)
Definition set_add (acc : list string) (g : string) : list string :=
  if isin g acc then acc else acc ++ [g].

(** Line 48: the tags of one genre string. *)
Definition genre_tags (g_str : string) : list string :=
  filter (fun g => negb (String.eqb g "")) (map strip (split_comma g_str)).

(** Lines 43-50.  Ties of the sort key come out in the order of the set. *)
Definition get_unique_genres (genre_series : list value) : string :=
  let genres :=
    fold_left
      (fun acc g_str =>
         match g_str with
         | VStr s =>
             if negb (String.eqb (strip s) "")
             then fold_left set_add (genre_tags s) acc
             else acc
         | _ => acc
         end)
      genre_series [] in
  String.concat ", "
    (isort (fun x y => String.leb (str_lower x) (str_lower y)) genres).

(** The rows of [recs] in the group of key [k]. *)
Definition group_rows (recs : list (Row Q)) (k : value) : list (Row Q) :=
  filter (fun r => value_eqb (Similar_Artists r) k) recs.

(** Lines 54-57 on one group. *)
Definition aggregate (recs : list (Row Q)) (k : value) : result Group :=
  let x := group_rows recs k in
  related <- strings_of (unique (map (@Artist Q) x)) ;;
  Ok (mkGroup k
        (String.concat ", " related)
        (List.length (filter notna (map (@Artist Q) x)))
        (sum (map (@Total_Plays Q) x))
        (get_unique_genres (map (@Artist_Genres Q) x))).

(** Lines 53-58: groups in the order of their sorted keys. *)
Definition group_keys (recs : list (Row Q)) : list value :=
  isort value_leb (unique (map (@Similar_Artists Q) recs)).

Definition summarize (recs : list (Row Q)) : result (list Group) :=
  mapM (aggregate recs) (group_keys recs).

(** Lines 61-63. *)
Definition score (count : nat) (total : Q) : npfloat :=
  np_mul count (np_log10 (Q2R total + 1)%R).

(** Lines 61-76 on one row. *)
Definition scored (g : Group) : Recommendation :=
  mkRecommendation (g_Similar_Artists g)
    (g_Related_Library_Artists g)
    (g_Recommendation_Count g)
    (g_Total_Play_Count g)
    (score (g_Recommendation_Count g) (g_Total_Play_Count g))
    (g_Related_Artist_Genres g).

(** Line 78: [sort_values('Priority_Score', ascending=False)].  Rows whose
    score is [NaN] go last; the others are sorted, largest first. *)
Definition sort_values (l : list Recommendation) : list Recommendation :=
  isort (fun x y => np_leb (Priority_Score y) (Priority_Score x))
        (filter (fun x => negb (isnan (Priority_Score x))) l)
  ++ filter (fun x => isnan (Priority_Score x)) l.

(** Lines 21-58, on the frame as it is after lines 17-18. *)
Definition groups (df : DataFrame) : result (list Group) :=
  sel <- getitem_required df ;;
  let artist_df := artist_level sel in
  _ <- str_accessor (mkSeries (Similar_Artists_dtype artist_df)
                              (map (@Similar_Artists Q) (rows artist_df))) ;;
  summarize (candidates (rows artist_df)).

(** Lines 21-78. *)
Definition recommend (df : DataFrame) : result (list Recommendation) :=
  recommendations <- groups df ;;
  Ok (sort_values (map scored recommendations)).

(** Lines 17-18: the caller's frame gets the column when it lacks it. *)
Definition ensure_genres (df : DataFrame) : DataFrame :=
  if has_column df "Artist_Genres" then df
  else setitem_scalar df "Artist_Genres" (VStr "").

(** The whole function: the caller's frame after the call, and the
    outcome. *)
Definition get_recommendations (df : DataFrame)
  : DataFrame * result (list Recommendation) :=
  let df' := ensure_genres df in
  (df', recommend df').

(** The retained library artists of a call: the rows of [artist_df], none
    when line 21 raises. *)
Definition library (df : DataFrame) : list (Row Q) :=
  match getitem_required (ensure_genres df) with
  | Ok sel => rows (artist_level sel)
  | Raise _ => []
  end.

(** The canonical keys of the library: [library_clean]. *)
Definition library_clean (df : DataFrame) : list string :=
  library_keys (library df).

End Pipeline.

(** ** An instance of the library for ASCII text

    The rows of the Unicode tables for code points below 128, and the
    decimal literals of the numeric parser.  It runs the model on concrete
    frames whose text is ASCII. *)

Module AsciiLib.

Definition between (lo hi : nat) (c : ascii) : bool :=
  (lo <=? nat_of_ascii c)%nat && (nat_of_ascii c <=? hi)%nat.

Definition lower_char (c : ascii) : ascii :=
  if between 65 90 c then ascii_of_nat (nat_of_ascii c + 32) else c.

Fixpoint lower (s : string) : string :=
  match s with
  | EmptyString => EmptyString
  | String c s' => String (lower_char c) (lower s')
  end.

(** Tab to carriage return, the four separators, and the space. *)
Definition space (c : ascii) : bool := between 9 13 c || between 28 32 c.

Definition word (c : ascii) : bool :=
  between 48 57 c || between 65 90 c || between 97 122 c || between 95 95 c.

Definition digit (c : ascii) : option Z :=
  if between 48 57 c then Some (Z.of_nat (nat_of_ascii c - 48)) else None.

Fixpoint fraction (s : string) (num : Z) (den : positive) : option Q :=
  match s with
  | EmptyString => Some (Qred (num # den))
  | String c s' =>
      match digit c with
      | Some d => fraction s' (10 * num + d)%Z (10 * den)%positive
      | None => None
      end
  end.

Fixpoint integer (s : string) (num : Z) (seen : bool) : option Q :=
  match s with
  | EmptyString => if seen then Some (num # 1) else None
  | String c s' =>
      if Ascii.eqb c "."%char then
        if seen then fraction s' num 1 else None
      else
        match digit c with
        | Some d => integer s' (10 * num + d)%Z true
        | None => None
        end
  end.

(** An optional sign, digits, and an optional point followed by digits. *)
Definition decimal (s : string) : option Q :=
  match s with
  | String "-"%char s' => option_map Qopp (integer s' 0 false)
  | String "+"%char s' => integer s' 0 false
  | _ => integer s 0 false
  end.

Definition lib : PyLib :=
  {| str_lower := lower;
     is_space := space;
     is_word := word;
     parse_number := decimal |}.

End AsciiLib.

(** ** Vocabulary of the statements *)

Section TextPredicates.
Context {L : PyLib}.

(** The characters [re.sub(r'[^\w\s]', '', _)] leaves in place: letters,
    digits and the underscore ([\w]), and whitespace ([\s]). *)
Definition kept (c : ascii) : bool := is_word c || is_space c.

Fixpoint str_forall (p : ascii -> bool) (s : string) : bool :=
  match s with
  | EmptyString => true
  | String c s' => p c && str_forall p s'
  end.

Definition leading_space (s : string) : bool :=
  match s with
  | EmptyString => false
  | String c _ => is_space c
  end.

Fixpoint trailing_space (s : string) : bool :=
  match s with
  | EmptyString => false
  | String c EmptyString => is_space c
  | String _ s' => trailing_space s'
  end.

(** [t] is [s] without some whitespace at its two ends. *)
Definition trimmed_from (s t : string) : Prop :=
  exists pre post : string,
    s = (pre ++ t ++ post)%string
    /\ str_forall is_space pre = true
    /\ str_forall is_space post = true.

(** The normalizer in the words of the design document: lowercase, remove
    what is not a letter, digit, underscore or whitespace, trim both ends;
    the empty string for what is not a string. *)
Definition normalized (text : value) (key : string) : Prop :=
  match text with
  | VStr s =>
      trimmed_from (str_filter kept (str_lower s)) key
      /\ leading_space key = false
      /\ trailing_space key = false
  | _ => key = ""
  end.

End TextPredicates.

(** Two rows in the order the output may list them: the later one has a
    score that is [NaN], or a score at most that of the earlier one. *)
Definition descending (a b : Recommendation) : Prop :=
  isnan (Priority_Score b) = true
  \/ np_le (Priority_Score b) (Priority_Score a).

(** Rows of pairwise different artists. *)
Definition distinct_artists {P : Type} (l : list (Row P)) : Prop :=
  ForallOrdPairs (fun x y => value_eqb (Artist x) (Artist y) = false) l.

Section Contributions.
Context {L : PyLib}.

(** The candidate rows a library artist contributes to [recs]. *)
Definition contribution (artist_df : list (Row Q)) (a : Row Q) : list (Row Q) :=
  fuzzy_filter (library_keys artist_df) (filter named (explode_row a)).

(** The library artists with a row in the group of key [k]. *)
Definition contributors (artist_df : list (Row Q)) (k : value) : list (Row Q) :=
  filter (fun a => existsb (fun x => value_eqb (Similar_Artists x) k)
                           (contribution artist_df a))
         artist_df.

(** No library artist names the same similar artist twice. *)
Definition entries_distinct (artist_df : list (Row Q)) : Prop :=
  forall a s, In a artist_df -> Similar_Artists a = VStr s -> NoDup (re_split s).

End Contributions.

(** A cell that holds text or nothing. *)
Definition text_or_null (v : value) : Prop := v = VNull \/ is_str v = true.

(** The input contract of the design document: the three required columns
    are present, [Artist] holds text or nulls, and [Similar_Artists] is a
    column of dtype [object] holding text or nulls. *)
Definition conforming (df : DataFrame) : Prop :=
  (forall c, In c ["Artist"; "Similar_Artists"; "Total_Plays"] ->
             has_column df c = true)
  /\ (forall a, lookup "Artist" (data df) = Some a ->
                Forall text_or_null (values a))
  /\ (forall s, lookup "Similar_Artists" (data df) = Some s ->
                dtype s = object /\ Forall text_or_null (values s)).

(** ** Concrete frames *)

Module Frames.

Definition text (l : list string) : Series := mkSeries object (map VStr l).

(** The first scenario of the design document. *)
Definition scenario : DataFrame :=
  mkDataFrame 2
    [("Artist", text ["Radiohead"; "Portishead"]);
     ("Similar_Artists", text ["Thom Yorke, Portishead"; ""]);
     ("Total_Plays", text ["100"; "50"]);
     ("Artist_Genres", text ["rock"; "trip hop"])].

Definition thom_yorke : Group :=
  mkGroup (VStr "Thom Yorke") "Radiohead" 1 100 "rock".

(** The same library without the optional column. *)
Definition no_genres : DataFrame :=
  mkDataFrame 2
    [("Artist", text ["Radiohead"; "Portishead"]);
     ("Similar_Artists", text ["Thom Yorke, Portishead"; ""]);
     ("Total_Plays", text ["100"; "50"])].

(** A play count below zero, held as a number. *)
Definition negative_plays : DataFrame :=
  mkDataFrame 1
    [("Artist", text ["Radiohead"]);
     ("Similar_Artists", text ["Thom Yorke"]);
     ("Total_Plays", mkSeries int64 [VNum (-5)]);
     ("Artist_Genres", text ["rock"])].

(** Whitespace in front of the commas of a list of similar artists. *)
Definition spaced : DataFrame :=
  mkDataFrame 1
    [("Artist", text ["Radiohead"]);
     ("Similar_Artists", text [" , Thom Yorke , Portishead"]);
     ("Total_Plays", text ["100"]);
     ("Artist_Genres", text ["rock"])].

Definition spaced_groups : list Group :=
  [mkGroup (VStr " ") "Radiohead" 1 100 "rock";
   mkGroup (VStr "Portishead") "Radiohead" 1 100 "rock";
   mkGroup (VStr "Thom Yorke ") "Radiohead" 1 100 "rock"].

(** One similar artist named twice by the same library artist. *)
Definition repeated : DataFrame :=
  mkDataFrame 1
    [("Artist", text ["Radiohead"]);
     ("Similar_Artists", text ["Thom Yorke, Thom Yorke"]);
     ("Total_Plays", text ["100"]);
     ("Artist_Genres", text ["rock"])].

Definition repeated_groups : list Group :=
  [mkGroup (VStr "Thom Yorke") "Radiohead" 2 200 "rock"].

(** A library none of whose artists has similar artists, as a reader of
    delimited text delivers it: the column is all [NaN], of dtype
    [float64]. *)
Definition no_similar : DataFrame :=
  mkDataFrame 2
    [("Artist", text ["Radiohead"; "Portishead"]);
     ("Similar_Artists", mkSeries float64 [VNull; VNull]);
     ("Total_Plays", mkSeries int64 [VNum 100; VNum 50]);
     ("Artist_Genres", text ["rock"; "trip hop"])].

(** Play counts between -1 and 0. *)
Definition fractional : DataFrame :=
  mkDataFrame 3
    [("Artist", text ["A"; "B"; "C"]);
     ("Similar_Artists", text ["X"; "Y"; "Y"]);
     ("Total_Plays", mkSeries object [VNum (-1 # 2); VNum (-1 # 2); VStr "abc"]);
     ("Artist_Genres", text [""; ""; ""])].

Definition group_x : Group := mkGroup (VStr "X") "A" 1 (-1 # 2) "".
Definition group_y : Group := mkGroup (VStr "Y") "B, C" 2 (-1 # 2) "".

(** Two groups with play counts that are not negative. *)
Definition two_groups : DataFrame :=
  mkDataFrame 2
    [("Artist", text ["Radiohead"; "Portishead"]);
     ("Similar_Artists", text ["Thom Yorke"; "Tricky"]);
     ("Total_Plays", mkSeries int64 [VNum 100; VNum 50]);
     ("Artist_Genres", text ["rock"; "trip hop"])].

Definition tricky : Group :=
  mkGroup (VStr "Tricky") "Portishead" 1 50 "trip hop".

End Frames.

(** Further frames, for the properties beyond the design document. *)

Module MoreFrames.

(** Every similar artist is in the library under another spelling. *)
Definition all_owned : DataFrame :=
  mkDataFrame 2
    [("Artist", Frames.text ["Radiohead"; "Portishead"]);
     ("Similar_Artists", Frames.text ["Portishead"; "radiohead!"]);
     ("Total_Plays", Frames.text ["100"; "50"]);
     ("Artist_Genres", Frames.text ["rock"; "trip hop"])].

(** An artist whose name is held as a number. *)
Definition numeric_artist : DataFrame :=
  mkDataFrame 1
    [("Artist", mkSeries object [VNum 311]);
     ("Similar_Artists", Frames.text ["Sublime"]);
     ("Total_Plays", Frames.text ["100"]);
     ("Artist_Genres", Frames.text ["rock"])].

(** The artist of the first row comes back in the third. *)
Definition duplicated : DataFrame :=
  mkDataFrame 3
    [("Artist", Frames.text ["Radiohead"; "Portishead"; "Radiohead"]);
     ("Similar_Artists", Frames.text ["Thom Yorke"; ""; "Blur"]);
     ("Total_Plays", Frames.text ["100"; "50"; "7"]);
     ("Artist_Genres", Frames.text ["rock"; "trip hop"; "pop"])].

(** The play counts are missing. *)
Definition no_plays : DataFrame :=
  mkDataFrame 1
    [("Artist", Frames.text ["Radiohead"]);
     ("Similar_Artists", Frames.text ["Thom Yorke"])].

End MoreFrames.

(** * Properties *)

Unset Implicit Arguments.

(** ** Lists, sorting and the result monad *)

Section ListFacts.
Variable A : Type.
Variable before : A -> A -> bool.

Lemma insert_perm (x : A) (l : list A) :
  Permutation (insert before x l) (x :: l).
Proof.
  induction l as [|y l IH]; simpl.
  - apply Permutation_refl.
  - destruct (before x y).
    + apply Permutation_refl.
    + apply perm_trans with (y :: x :: l).
      * apply perm_skip, IH.
      * apply perm_swap.
Qed.

Lemma isort_perm (l : list A) : Permutation (isort before l) l.
Proof.
  induction l as [|x l IH]; simpl.
  - apply perm_nil.
  - apply perm_trans with (x :: isort before l).
    + apply insert_perm.
    + apply perm_skip, IH.
Qed.

Lemma isort_In (l : list A) (x : A) : In x (isort before l) <-> In x l.
Proof.
  split; apply Permutation_in.
  - apply isort_perm.
  - apply Permutation_sym, isort_perm.
Qed.

(** Sortedness of [isort] for an order that is total on the elements of
    the list and transitive. *)
Variable P : A -> Prop.
Hypothesis before_total :
  forall x y, P x -> P y -> before x y = true \/ before y x = true.
Hypothesis before_trans :
  forall x y z, before x y = true -> before y z = true -> before x z = true.

Lemma insert_sorted (x : A) (l : list A) :
  P x -> Forall P l ->
  StronglySorted (fun a b => before a b = true) l ->
  StronglySorted (fun a b => before a b = true) (insert before x l).
Proof.
  intros Px Pl Hs. induction Hs as [|y l Hs IH Hy]; simpl.
  - constructor; constructor.
  - inversion Pl as [|? ? Py Pl']; subst.
    destruct (before x y) eqn:E.
    + constructor.
      * constructor; assumption.
      * constructor; [exact E|].
        rewrite Forall_forall in Hy |- *.
        intros z Hz. apply before_trans with y; [exact E | apply Hy, Hz].
    + constructor.
      * apply IH, Pl'.
      * rewrite Forall_forall in Hy |- *.
        intros z Hz.
        apply (Permutation_in _ (insert_perm x l)) in Hz.
        destruct Hz as [<- | Hz].
        -- destruct (before_total _ _ Px Py) as [H | H]; [congruence | exact H].
        -- apply Hy, Hz.
Qed.

Lemma isort_sorted (l : list A) :
  Forall P l -> StronglySorted (fun a b => before a b = true) (isort before l).
Proof.
  induction l as [|x l IH]; simpl; intros Hl.
  - constructor.
  - inversion Hl as [|? ? Px Pl]; subst.
    apply insert_sorted; [exact Px | | apply IH, Pl].
    rewrite Forall_forall in Pl |- *.
    intros z Hz. apply Pl. apply isort_In, Hz.
Qed.
End ListFacts.

Lemma bind_ok_inv {A B : Type} (m : result A) (k : A -> result B) (b : B) :
  bind m k = Ok b -> exists a, m = Ok a /\ k a = Ok b.
Proof.
  destruct m as [a | e]; simpl; intros H.
  - exists a. split; [reflexivity | exact H].
  - discriminate.
Qed.

Lemma mapM_ok_inv {A B : Type} (f : A -> result B) (l : list A) (bs : list B) :
  mapM f l = Ok bs -> Forall2 (fun a b => f a = Ok b) l bs.
Proof.
  revert bs. induction l as [|a l IH]; simpl; intros bs H.
  - injection H as <-. constructor.
  - apply bind_ok_inv in H. destruct H as [b [Hb H]].
    apply bind_ok_inv in H. destruct H as [bs' [Hbs H]].
    injection H as <-. constructor; [exact Hb | apply IH, Hbs].
Qed.

Lemma mapM_ok_In {A B : Type} (f : A -> result B) (l : list A) (bs : list B) (b : B) :
  mapM f l = Ok bs -> In b bs -> exists a, In a l /\ f a = Ok b.
Proof.
  intros H. apply mapM_ok_inv in H.
  induction H as [|a b' l bs' Hab _ IH]; simpl; intros Hin.
  - contradiction.
  - destruct Hin as [-> | Hin].
    + exists a. split; [left; reflexivity | exact Hab].
    + destruct (IH Hin) as [a' [Ha' Hf]].
      exists a'. split; [right; exact Ha' | exact Hf].
Qed.

Lemma unique_from_In (seen l : list value) (v : value) :
  In v (unique_from seen l) -> In v l.
Proof.
  revert seen. induction l as [|x l IH]; simpl; intros seen H.
  - exact H.
  - destruct (existsb (value_eqb x) seen).
    + right. eapply IH, H.
    + destruct H as [-> | H]; [left; reflexivity | right; eapply IH, H].
Qed.

Lemma filter_split_perm {A : Type} (f : A -> bool) (l : list A) :
  Permutation (filter (fun x => negb (f x)) l ++ filter f l) l.
Proof.
  induction l as [|a l IH]; simpl.
  - apply perm_nil.
  - destruct (f a); simpl.
    + apply Permutation_sym.
      apply Permutation_cons_app, Permutation_sym, IH.
    + apply perm_skip, IH.
Qed.

(** ** The stages of the pipeline *)

Section PipelineFacts.
Context {L : PyLib}.

Lemma sort_values_perm (l : list Recommendation) :
  Permutation (sort_values l) l.
Proof.
  unfold sort_values.
  eapply perm_trans; [| apply (filter_split_perm (fun x => isnan (Priority_Score x)))].
  apply Permutation_app_tail, isort_perm.
Qed.

Lemma sort_values_In (l : list Recommendation) (r : Recommendation) :
  In r (sort_values l) <-> In r l.
Proof.
  split; apply Permutation_in.
  - apply sort_values_perm.
  - apply Permutation_sym, sort_values_perm.
Qed.

Lemma recommend_ok_inv (df : DataFrame) (out : list Recommendation) :
  recommend df = Ok out ->
  exists gs, groups df = Ok gs /\ out = sort_values (map scored gs).
Proof.
  unfold recommend. intros H.
  apply bind_ok_inv in H. destruct H as [gs [Hg H]].
  injection H as <-. exists gs. split; [exact Hg | reflexivity].
Qed.

Lemma recommend_of_groups (df : DataFrame) (gs : list Group) :
  groups df = Ok gs -> recommend df = Ok (sort_values (map scored gs)).
Proof.
  unfold recommend. intros ->. reflexivity.
Qed.

Lemma groups_ok_inv (df : DataFrame) (gs : list Group) :
  groups df = Ok gs ->
  exists sel,
    getitem_required df = Ok sel
    /\ summarize (candidates (rows (artist_level sel))) = Ok gs.
Proof.
  unfold groups. intros H.
  apply bind_ok_inv in H. destruct H as [sel [Hsel H]].
  apply bind_ok_inv in H. destruct H as [_ [_ H]].
  exists sel. split; [exact Hsel | exact H].
Qed.

Lemma group_keys_In (recs : list (Row Q)) (k : value) :
  In k (group_keys recs) -> exists x, In x recs /\ Similar_Artists x = k.
Proof.
  unfold group_keys. intros H.
  apply (proj1 (isort_In _ _ _ _)) in H. apply unique_from_In in H.
  apply in_map_iff in H. destruct H as [x [Hx Hin]].
  exists x. split; assumption.
Qed.

(** Every row of the output is the scored summary of the group of some
    surviving candidate. *)
Lemma output_row (df : DataFrame) (out : list Recommendation) (r : Recommendation) :
  snd (get_recommendations df) = Ok out -> In r out ->
  exists x g,
    In x (candidates (library df))
    /\ aggregate (candidates (library df)) (Similar_Artists x) = Ok g
    /\ r = scored g.
Proof.
  unfold get_recommendations, library. simpl. intros H Hr.
  apply recommend_ok_inv in H. destruct H as [gs [Hg ->]].
  apply groups_ok_inv in Hg. destruct Hg as [sel [Hsel Hsum]].
  rewrite Hsel.
  apply (proj1 (sort_values_In _ _)) in Hr. apply in_map_iff in Hr.
  destruct Hr as [g [<- Hg]].
  destruct (mapM_ok_In _ _ _ _ Hsum Hg) as [k [Hk Hagg]].
  apply group_keys_In in Hk. destruct Hk as [x [Hx <-]].
  exists x, g. repeat split; assumption.
Qed.

Lemma aggregate_ok_inv (recs : list (Row Q)) (k : value) (g : Group) :
  aggregate recs k = Ok g ->
  g_Similar_Artists g = k
  /\ g_Recommendation_Count g
     = List.length (filter notna (map (@Artist Q) (group_rows recs k)))
  /\ g_Total_Play_Count g = sum (map (@Total_Plays Q) (group_rows recs k)).
Proof.
  unfold aggregate. intros H.
  apply bind_ok_inv in H. destruct H as [related [_ H]].
  injection H as <-. simpl. repeat split.
Qed.

Lemma candidates_In (artist_df : list (Row Q)) (x : Row Q) :
  In x (candidates artist_df) ->
  named x = true
  /\ isin (suggested_key x) (library_keys artist_df) = false
  /\ In x (expand artist_df).
Proof.
  unfold candidates, fuzzy_filter. intros H.
  apply filter_In in H. destruct H as [H Hkey].
  apply filter_In in H. destruct H as [Hin Hnamed].
  apply negb_true_iff in Hkey. repeat split; assumption.
Qed.

Lemma isin_In (k : string) (keys : list string) :
  isin k keys = true <-> In k keys.
Proof.
  unfold isin. rewrite existsb_exists. split.
  - intros [y [Hy E]]. apply String.eqb_eq in E. subst. exact Hy.
  - intros H. exists k. split; [exact H | apply String.eqb_refl].
Qed.

Lemma value_eqb_refl (v : value) : value_eqb v v = true.
Proof.
  destruct v as [|s|q]; simpl.
  - reflexivity.
  - apply String.eqb_refl.
  - apply Qeq_bool_iff. reflexivity.
Qed.

Lemma value_eqb_clean_key (a b : value) :
  value_eqb a b = true -> clean_key a = clean_key b.
Proof.
  destruct a, b; simpl; try discriminate; try reflexivity.
  intros E. apply String.eqb_eq in E. subst. reflexivity.
Qed.

Lemma value_eqb_notna (a b : value) :
  value_eqb a b = true -> notna a = notna b.
Proof.
  destruct a, b; simpl; try discriminate; reflexivity.
Qed.

(** [drop_duplicates] keeps a row for every artist of the frame. *)
Lemma drop_duplicates_from_covers {P : Type} (l : list (Row P)) :
  forall (seen : list value) (r : Row P),
    In r l ->
    existsb (value_eqb (Artist r)) seen = true
    \/ exists r', In r' (drop_duplicates_from seen l)
                  /\ value_eqb (Artist r) (Artist r') = true.
Proof.
  induction l as [|x l IH]; simpl; intros seen r Hr.
  - contradiction.
  - destruct (existsb (value_eqb (Artist x)) seen) eqn:E.
    + destruct Hr as [-> | Hr]; [left; exact E | apply IH, Hr].
    + destruct Hr as [-> | Hr].
      * right. exists r. split; [left; reflexivity | apply value_eqb_refl].
      * destruct (IH (Artist x :: seen) r Hr) as [H | [r' [Hr' He]]].
        -- simpl in H. apply orb_true_iff in H. destruct H as [H | H].
           ++ right. exists x. split; [left; reflexivity | exact H].
           ++ left. exact H.
        -- right. exists r'. split; [right; exact Hr' | exact He].
Qed.

Lemma drop_duplicates_covers {P : Type} (l : list (Row P)) (r : Row P) :
  In r l ->
  exists r', In r' (drop_duplicates l) /\ value_eqb (Artist r) (Artist r') = true.
Proof.
  intros Hr.
  destruct (drop_duplicates_from_covers l [] r Hr) as [H | H].
  - discriminate.
  - exact H.
Qed.

Lemma drop_duplicates_from_In {P : Type} (l : list (Row P)) :
  forall (seen : list value) (r : Row P),
    In r (drop_duplicates_from seen l) -> In r l.
Proof.
  induction l as [|x l IH]; simpl; intros seen r Hr.
  - exact Hr.
  - destruct (existsb (value_eqb (Artist x)) seen).
    + right. eapply IH, Hr.
    + destruct Hr as [-> | Hr]; [left; reflexivity | right; eapply IH, Hr].
Qed.

(** The key of every non-null artist cell of the frame is a key of the
    library. *)
Lemma library_covers (df : DataFrame) (sel : ArtistFrame value) (r : Row value) :
  getitem_required (ensure_genres df) = Ok sel ->
  In r (rows sel) -> notna (Artist r) = true ->
  In (clean_key (Artist r)) (library_clean df).
Proof.
  intros Hsel Hr Hn.
  unfold library_clean, library, library_keys. rewrite Hsel.
  apply nodup_In.
  destruct (drop_duplicates_covers (rows sel) r Hr) as [r' [Hr' He]].
  apply in_map_iff. exists (coerce r'). split.
  - simpl. symmetry. apply value_eqb_clean_key, He.
  - unfold artist_level. simpl. apply filter_In. split.
    + apply in_map, Hr'.
    + simpl. rewrite <- (value_eqb_notna _ _ He). exact Hn.
Qed.

End PipelineFacts.

(** ** The scenario of the design document, run *)

Lemma scenario_groups :
  groups (L := AsciiLib.lib) (ensure_genres Frames.scenario) = Ok [Frames.thom_yorke].
Proof. vm_compute. reflexivity. Qed.

Lemma scenario_output :
  snd (get_recommendations (L := AsciiLib.lib) Frames.scenario)
  = Ok (sort_values [scored Frames.thom_yorke]).
Proof.
  unfold get_recommendations. simpl snd.
  exact (recommend_of_groups (L := AsciiLib.lib) _ _ scenario_groups).
Qed.

Lemma scenario_row :
  In (scored Frames.thom_yorke) (sort_values [scored Frames.thom_yorke]).
Proof. apply sort_values_In. left. reflexivity. Qed.

(** ** The fuzzy filter *)

Section FuzzyFilter.
Context {L : PyLib}.

(** C1.  Whatever the input frame, the canonical key of every
    [Missing_Artist] of the output is absent from the library's set of
    canonical keys; hence it differs from the key of every retained library
    artist, and from the key of every non-null [Artist] cell of the input. *)
Theorem missing_artist_key_outside_library
    (df : DataFrame) (out : list Recommendation) (r : Recommendation) :
  snd (get_recommendations df) = Ok out -> In r out ->
  ~ In (clean_key (Missing_Artist r)) (library_clean df)
  /\ (forall a, In a (library df) ->
                clean_key (Artist a) <> clean_key (Missing_Artist r))
  /\ (forall sel raw,
        getitem_required (ensure_genres df) = Ok sel ->
        In raw (rows sel) -> notna (Artist raw) = true ->
        clean_key (Artist raw) <> clean_key (Missing_Artist r)).
Proof.
  intros Hout Hr.
  destruct (output_row df out r Hout Hr) as [x [g [Hx [Hagg ->]]]].
  apply aggregate_ok_inv in Hagg. destruct Hagg as [Hk _].
  apply candidates_In in Hx. destruct Hx as [_ [Hkey _]].
  assert (Hnot : ~ In (clean_key (Missing_Artist (scored g))) (library_clean df)).
  { simpl. rewrite Hk. intros Hin. apply isin_In in Hin.
    unfold suggested_key, library_clean in *. congruence. }
  split; [exact Hnot | split].
  - intros a Ha E. apply Hnot. rewrite <- E.
    unfold library_clean, library_keys. apply nodup_In.
    apply in_map_iff. exists a. split; [reflexivity | exact Ha].
  - intros sel raw Hsel Hraw Hn E. apply Hnot. rewrite <- E.
    apply (library_covers df sel raw Hsel Hraw Hn).
Qed.

End FuzzyFilter.

Lemma missing_artist_key_outside_library_witness :
  snd (get_recommendations (L := AsciiLib.lib) Frames.scenario)
  = Ok (sort_values [scored Frames.thom_yorke])
  /\ In (scored Frames.thom_yorke) (sort_values [scored Frames.thom_yorke])
  /\ ~ In (clean_key (L := AsciiLib.lib) (VStr "Thom Yorke"))
          (library_clean (L := AsciiLib.lib) Frames.scenario).
Proof.
  split; [exact scenario_output | split; [exact scenario_row |]].
  exact (proj1 (missing_artist_key_outside_library (L := AsciiLib.lib)
                  Frames.scenario _ _ scenario_output scenario_row)).
Defined.

(** ** The normalizer *)

Section Normalizer.
Context {L : PyLib}.

Lemma lstrip_trimmed (s : string) :
  exists pre, s = (pre ++ lstrip s)%string /\ str_forall is_space pre = true.
Proof.
  induction s as [|c s IH]; simpl.
  - exists EmptyString. split; reflexivity.
  - destruct (is_space c) eqn:E.
    + destruct IH as [pre [Hs Hp]].
      exists (String c pre). simpl. rewrite E, Hp. split; [f_equal; exact Hs | reflexivity].
    + exists EmptyString. split; reflexivity.
Qed.

Lemma lstrip_leading (s : string) : leading_space (lstrip s) = false.
Proof.
  induction s as [|c s IH]; simpl.
  - reflexivity.
  - destruct (is_space c) eqn:E; [exact IH | simpl; exact E].
Qed.

Lemma rstrip_trimmed (s : string) :
  exists post, s = (rstrip s ++ post)%string /\ str_forall is_space post = true.
Proof.
  induction s as [|c s IH]; simpl.
  - exists EmptyString. split; reflexivity.
  - destruct IH as [post [Hs Hp]].
    destruct (rstrip s) as [|d r] eqn:Er.
    + destruct (is_space c) eqn:E.
      * exists (String c post). simpl in *. rewrite E, Hp.
        split; [f_equal; exact Hs | reflexivity].
      * exists post. simpl in *. split; [f_equal; exact Hs | exact Hp].
    + exists post. simpl in *. split; [f_equal; exact Hs | exact Hp].
Qed.

Lemma rstrip_trailing (s : string) : trailing_space (rstrip s) = false.
Proof.
  induction s as [|c s IH]; simpl.
  - reflexivity.
  - destruct (rstrip s) as [|d r] eqn:Er.
    + destruct (is_space c) eqn:E; simpl; [reflexivity | exact E].
    + exact IH.
Qed.

Lemma rstrip_leading (s : string) :
  leading_space s = false -> leading_space (rstrip s) = false.
Proof.
  destruct s as [|c s]; simpl.
  - reflexivity.
  - intros E. destruct (rstrip s); [rewrite E|]; simpl; exact E.
Qed.

Lemma append_assoc (a b c : string) :
  ((a ++ b) ++ c)%string = (a ++ b ++ c)%string.
Proof.
  induction a as [|x a IH]; simpl; [reflexivity | f_equal; exact IH].
Qed.

Lemma strip_trimmed (s : string) : trimmed_from s (strip s).
Proof.
  unfold trimmed_from, strip.
  destruct (lstrip_trimmed s) as [pre [Hs Hpre]].
  destruct (rstrip_trimmed (lstrip s)) as [post [Hl Hpost]].
  exists pre, post. split; [| split; assumption].
  rewrite <- Hl. exact Hs.
Qed.

(** C2.  The normalizer is a total function to strings.  A value that is
    not a string (null, a number) is sent to the empty string.  A string is
    lowercased, loses every character that is not a letter, digit,
    underscore or whitespace, and is then trimmed: the key is what is left
    of the filtered lowercase text once whitespace is cut from its two ends,
    it neither starts nor ends with whitespace, and all its characters are
    letters, digits, underscores or whitespace. *)
Theorem clean_key_normalizes (text : value) :
  normalized text (clean_key text)
  /\ (is_str text = false -> clean_key text = "")
  /\ str_forall kept (clean_key text) = true
  /\ exists key : string, clean_key text = key.
Proof.
  assert (Hkept : forall p s, str_forall p (str_filter p s) = true).
  { intros p s. induction s as [|c s IH]; simpl; [reflexivity|].
    destruct (p c) eqn:E; simpl; [rewrite E; exact IH | exact IH]. }
  assert (Happ : forall p a b, str_forall p (a ++ b)%string = true ->
                               str_forall p a = true /\ str_forall p b = true).
  { intros p a b. induction a as [|c a IH]; simpl; intros H.
    - split; [reflexivity | exact H].
    - apply andb_true_iff in H. destruct H as [Hc H].
      destruct (IH H) as [Ha Hb]. rewrite Hc, Ha. split; [reflexivity | exact Hb]. }
  split; [| split; [| split]].
  - destruct text as [|s|q]; simpl; try reflexivity.
    split; [apply strip_trimmed | split].
    + apply rstrip_leading, lstrip_leading.
    + apply rstrip_trailing.
  - destruct text; simpl; intros H; [reflexivity | discriminate | reflexivity].
  - destruct text as [|s|q]; simpl; try reflexivity.
    destruct (strip_trimmed (re_sub_punct (str_lower s))) as [pre [post [Hs _]]].
    pose proof (Hkept kept (str_lower s)) as Hk.
    unfold re_sub_punct in Hs. fold kept in Hs.
    unfold kept in Hk at 1. unfold kept at 1. 
    unfold re_sub_punct. fold kept.
    rewrite Hs in Hk.
    apply Happ in Hk. destruct Hk as [_ Hk].
    apply Happ in Hk. destruct Hk as [Hk _]. exact Hk.
  - exists (clean_key text). reflexivity.
Qed.

End Normalizer.

Lemma clean_key_normalizes_witness :
  clean_key (L := AsciiLib.lib) (VNum 311) = "".
Proof.
  exact (proj1 (proj2 (clean_key_normalizes (L := AsciiLib.lib) (VNum 311))) eq_refl).
Defined.

Example clean_key_beatles :
  clean_key (L := AsciiLib.lib) (VStr "  The Beatles!! ") = "the beatles".
Proof. reflexivity. Qed.

Example clean_key_null : clean_key (L := AsciiLib.lib) VNull = "".
Proof. reflexivity. Qed.

(** ** Floats *)

Lemma ln_10_pos : (0 < ln 10)%R.
Proof.
  rewrite <- ln_1. apply ln_increasing; lra.
Qed.

Lemma np_log10_pos (x : R) : (0 < x)%R -> np_log10 x = Fin (ln x / ln 10)%R.
Proof.
  intros H. unfold np_log10. destruct (Rlt_dec 0 x) as [_ | n]; [reflexivity | contradiction].
Qed.

Lemma np_log10_one : np_log10 1 = Fin 0.
Proof.
  rewrite np_log10_pos by lra. f_equal.
  rewrite ln_1. unfold Rdiv. apply Rmult_0_l.
Qed.

Lemma np_leb_le (a b : npfloat) : np_leb a b = true <-> np_le a b.
Proof.
  destruct a as [| |x], b as [| |y]; simpl; try (split; [discriminate | contradiction]);
    try (split; trivial).
  - destruct (Rle_dec x y); [trivial | discriminate].
  - intros H. destruct (Rle_dec x y); [reflexivity | contradiction].
Qed.

Lemma np_le_trans (a b c : npfloat) : np_le a b -> np_le b c -> np_le a c.
Proof.
  destruct a as [| |x], b as [| |y], c as [| |z]; simpl; try tauto.
  apply Rle_trans.
Qed.

Lemma np_le_total (a b : npfloat) :
  isnan a = false -> isnan b = false -> np_le a b \/ np_le b a.
Proof.
  destruct a as [| |x], b as [| |y]; simpl; try discriminate; try tauto.
  intros _ _. destruct (Rle_dec x y); [left; assumption | right; lra].
Qed.

Lemma np_le_not_lt (a b : npfloat) : np_le b a -> ~ np_lt a b.
Proof.
  destruct a as [| |x], b as [| |y]; simpl; try tauto. lra.
Qed.

Lemma np_lt_not_nan (a b : npfloat) : np_lt a b -> isnan b = false.
Proof.
  destruct a, b; simpl; try contradiction; reflexivity.
Qed.

Lemma Q2R_zero (q : Q) : (q == 0)%Q -> Q2R q = 0%R.
Proof.
  intros H. rewrite (Qeq_eqR _ _ H). unfold Q2R. simpl. lra.
Qed.

Lemma StronglySorted_app {A : Type} (R : A -> A -> Prop) (l1 l2 : list A) :
  StronglySorted R l1 -> StronglySorted R l2 ->
  (forall a b, In a l1 -> In b l2 -> R a b) ->
  StronglySorted R (l1 ++ l2).
Proof.
  intros H1 H2 H. induction H1 as [|a l1 H1 IH Ha]; simpl.
  - exact H2.
  - constructor.
    + apply IH. intros x y Hx Hy. apply H; [right; exact Hx | exact Hy].
    + apply Forall_app. split; [exact Ha|].
      apply Forall_forall. intros y Hy. apply H; [left; reflexivity | exact Hy].
Qed.

Lemma StronglySorted_weaken {A : Type} (R S : A -> A -> Prop) (l : list A) :
  (forall a b, R a b -> S a b) -> StronglySorted R l -> StronglySorted S l.
Proof.
  intros HRS H. induction H as [|a l H IH Ha]; constructor.
  - exact IH.
  - apply Forall_forall. intros y Hy. apply HRS.
    rewrite Forall_forall in Ha. apply Ha, Hy.
Qed.

Lemma StronglySorted_pairs {A : Type} (R : A -> A -> Prop) (l : list A) :
  StronglySorted R l ->
  forall l1 a l2 b l3, l = l1 ++ a :: l2 ++ b :: l3 -> R a b.
Proof.
  intros H l1. revert l H. induction l1 as [|x l1 IH]; intros l H a l2 b l3 E; subst l.
  - simpl in H. apply StronglySorted_inv in H. destruct H as [_ Ha].
    rewrite Forall_forall in Ha. apply Ha.
    apply in_or_app. right. left. reflexivity.
  - simpl in H. apply StronglySorted_inv in H. destruct H as [H _].
    apply (IH _ H a l2 b l3 eq_refl).
Qed.

(** ** Scores and the order of the output *)

Section Scoring.
Context {L : PyLib}.

Lemma output_row_scored (df : DataFrame) (out : list Recommendation) (r : Recommendation) :
  snd (get_recommendations df) = Ok out -> In r out -> exists g, r = scored g.
Proof.
  intros Hout Hr.
  destruct (output_row df out r Hout Hr) as [x [g [_ [_ E]]]].
  exists g. exact E.
Qed.

(** C3.  In every row of the output the priority score is the
    recommendation count times the base-10 logarithm of the total play count
    plus one; when the total play count is 0 the score is 0, whatever the
    count.  (Arithmetic on reals: no rounding.) *)
Theorem priority_score_formula
    (df : DataFrame) (out : list Recommendation) (r : Recommendation) :
  snd (get_recommendations df) = Ok out -> In r out ->
  Priority_Score r
  = np_mul (Recommendation_Count r)
           (np_log10 (Q2R (Related_Library_Artists_Total_Play_Count r) + 1)%R)
  /\ ((Related_Library_Artists_Total_Play_Count r == 0)%Q ->
      Priority_Score r = Fin 0).
Proof.
  intros Hout Hr.
  destruct (output_row_scored df out r Hout Hr) as [g ->].
  split; [reflexivity|].
  simpl. intros Hz. unfold score.
  rewrite (Q2R_zero _ Hz), Rplus_0_l, np_log10_one. simpl.
  f_equal. apply Rmult_0_r.
Qed.

Lemma sort_values_sorted (l : list Recommendation) :
  StronglySorted descending (sort_values l).
Proof.
  unfold sort_values.
  apply StronglySorted_app.
  - apply StronglySorted_weaken
      with (R := fun a b => np_leb (Priority_Score b) (Priority_Score a) = true).
    + intros a b H. right. apply np_leb_le, H.
    + apply isort_sorted with (P := fun x => isnan (Priority_Score x) = false).
      * intros x y Hx Hy.
        destruct (np_le_total _ _ Hx Hy) as [H | H].
        -- right. apply np_leb_le, H.
        -- left. apply np_leb_le, H.
      * intros x y z Hxy Hyz. apply np_leb_le.
        apply np_le_trans with (Priority_Score y); apply np_leb_le; assumption.
      * apply Forall_forall. intros x Hx.
        apply filter_In in Hx. destruct Hx as [_ Hx].
        apply negb_true_iff, Hx.
  - induction l as [|x l IH]; simpl.
    + constructor.
    + destruct (isnan (Priority_Score x)) eqn:E; [| exact IH].
      constructor; [exact IH|].
      apply Forall_forall. intros y Hy.
      apply filter_In in Hy. destruct Hy as [_ Hy]. left. exact Hy.
  - intros a b _ Hb.
    apply filter_In in Hb. destruct Hb as [_ Hb]. left. exact Hb.
Qed.

Lemma descending_not_lt (a b : Recommendation) :
  descending a b -> ~ np_lt (Priority_Score a) (Priority_Score b).
Proof.
  intros [H | H].
  - intros Hlt. apply np_lt_not_nan in Hlt. congruence.
  - apply np_le_not_lt, H.
Qed.

(** C9.  The rows of the output are in descending order of
    [Priority_Score]: of two rows, the later one has a score at most that
    of the earlier one (rows whose score is not a number come last), so no
    row is followed, at any distance, by a row of strictly greater score.
    Nothing is said of the order of ties. *)
Theorem output_sorted_descending (df : DataFrame) (out : list Recommendation) :
  snd (get_recommendations df) = Ok out ->
  StronglySorted descending out
  /\ forall l1 a l2 b l3,
       out = l1 ++ a :: l2 ++ b :: l3 ->
       ~ np_lt (Priority_Score a) (Priority_Score b).
Proof.
  unfold get_recommendations. simpl. intros H.
  apply recommend_ok_inv in H. destruct H as [gs [_ ->]].
  pose proof (sort_values_sorted (map scored gs)) as Hs.
  split; [exact Hs|].
  intros l1 a l2 b l3 E.
  apply descending_not_lt.
  apply (StronglySorted_pairs _ _ Hs l1 a l2 b l3 E).
Qed.

Lemma score_nonneg_total (c : nat) (t : Q) :
  (0 <= t)%Q ->
  score c t = Fin (INR c * (ln (Q2R t + 1) / ln 10))%R
  /\ (0 <= ln (Q2R t + 1) / ln 10)%R.
Proof.
  intros Ht. apply Qle_Rle in Ht.
  replace (Q2R 0) with 0%R in Ht by (unfold Q2R; simpl; lra).
  unfold score. rewrite np_log10_pos by lra. split; [reflexivity|].
  pose proof ln_10_pos as H10.
  assert (0 <= ln (Q2R t + 1))%R.
  { destruct (Req_dec (Q2R t) 0) as [E | N].
    - rewrite E, Rplus_0_l, ln_1. lra.
    - rewrite <- ln_1. left. apply ln_increasing; lra. }
  apply Rmult_le_pos; [assumption|]. left. apply Rinv_0_lt_compat, H10.
Qed.

(** C10, amended.  Among output groups whose total play count is not
    negative the score is monotone: with equal totals, the group with the
    larger recommendation count has a score at least as large; with equal
    counts, the group with the larger total has a score at least as
    large. *)
Theorem priority_score_monotone
    (df : DataFrame) (out : list Recommendation) (r1 r2 : Recommendation) :
  snd (get_recommendations df) = Ok out -> In r1 out -> In r2 out ->
  (0 <= Related_Library_Artists_Total_Play_Count r1)%Q ->
  (0 <= Related_Library_Artists_Total_Play_Count r2)%Q ->
  ((Related_Library_Artists_Total_Play_Count r1
    == Related_Library_Artists_Total_Play_Count r2)%Q ->
   (Recommendation_Count r1 <= Recommendation_Count r2)%nat ->
   np_le (Priority_Score r1) (Priority_Score r2))
  /\ (Recommendation_Count r1 = Recommendation_Count r2 ->
      (Related_Library_Artists_Total_Play_Count r1
       <= Related_Library_Artists_Total_Play_Count r2)%Q ->
      np_le (Priority_Score r1) (Priority_Score r2)).
Proof.
  intros Hout H1 H2.
  destruct (output_row_scored df out r1 Hout H1) as [g1 ->].
  destruct (output_row_scored df out r2 Hout H2) as [g2 ->].
  simpl. intros T1 T2.
  destruct (score_nonneg_total (g_Recommendation_Count g1) _ T1) as [E1 P1].
  destruct (score_nonneg_total (g_Recommendation_Count g2) _ T2) as [E2 P2].
  rewrite E1, E2. simpl. split.
  - intros Ht Hc. rewrite (Qeq_eqR _ _ Ht) in *.
    apply Rmult_le_compat_r; [exact P2 | apply le_INR, Hc].
  - intros Hc Ht. rewrite Hc.
    apply Rmult_le_compat_l; [apply pos_INR|].
    apply Rmult_le_compat_r.
    + left. apply Rinv_0_lt_compat, ln_10_pos.
    + apply Qle_Rle in Ht. apply Qle_Rle in T1.
      replace (Q2R 0) with 0%R in T1 by (unfold Q2R; simpl; lra).
      destruct (Req_dec (Q2R (g_Total_Play_Count g1)) (Q2R (g_Total_Play_Count g2)))
        as [E | N].
      * rewrite E. lra.
      * left. apply ln_increasing; lra.
Qed.

End Scoring.

Lemma priority_score_formula_witness :
  snd (get_recommendations (L := AsciiLib.lib) Frames.scenario)
  = Ok (sort_values [scored Frames.thom_yorke])
  /\ In (scored Frames.thom_yorke) (sort_values [scored Frames.thom_yorke])
  /\ Priority_Score (scored Frames.thom_yorke)
     = np_mul 1 (np_log10 (Q2R 100 + 1)%R).
Proof.
  split; [exact scenario_output | split; [exact scenario_row |]].
  exact (proj1 (priority_score_formula (L := AsciiLib.lib)
                  Frames.scenario _ _ scenario_output scenario_row)).
Defined.

(** The score of the scenario: [1 * log10(101)]. *)
Example scenario_score :
  Priority_Score (scored Frames.thom_yorke) = Fin (1 * (ln 101 / ln 10))%R.
Proof.
  simpl. unfold score. simpl.
  replace (Q2R 100 + 1)%R with 101%R by (unfold Q2R; simpl; lra).
  rewrite np_log10_pos by lra. reflexivity.
Qed.

Lemma output_sorted_descending_witness :
  snd (get_recommendations (L := AsciiLib.lib) Frames.scenario)
  = Ok (sort_values [scored Frames.thom_yorke])
  /\ StronglySorted descending (sort_values [scored Frames.thom_yorke]).
Proof.
  split; [exact scenario_output |].
  exact (proj1 (output_sorted_descending (L := AsciiLib.lib)
                  Frames.scenario _ scenario_output)).
Defined.

Lemma two_groups_output :
  snd (get_recommendations (L := AsciiLib.lib) Frames.two_groups)
  = Ok (sort_values [scored Frames.thom_yorke; scored Frames.tricky]).
Proof.
  unfold get_recommendations. simpl snd.
  refine (recommend_of_groups (L := AsciiLib.lib) _ [Frames.thom_yorke; Frames.tricky] _).
  vm_compute. reflexivity.
Qed.

Lemma priority_score_monotone_witness :
  snd (get_recommendations (L := AsciiLib.lib) Frames.two_groups)
  = Ok (sort_values [scored Frames.thom_yorke; scored Frames.tricky])
  /\ np_le (Priority_Score (scored Frames.tricky))
           (Priority_Score (scored Frames.thom_yorke)).
Proof.
  split; [exact two_groups_output |].
  refine (proj2 (priority_score_monotone (L := AsciiLib.lib)
                   Frames.two_groups _ (scored Frames.tricky) (scored Frames.thom_yorke)
                   two_groups_output _ _ _ _) eq_refl _).
  - apply sort_values_In. right. left. reflexivity.
  - apply sort_values_In. left. reflexivity.
  - simpl. unfold Qle. simpl. lia.
  - simpl. unfold Qle. simpl. lia.
  - simpl. unfold Qle. simpl. lia.
Defined.

Lemma fractional_output :
  snd (get_recommendations (L := AsciiLib.lib) Frames.fractional)
  = Ok (sort_values [scored Frames.group_x; scored Frames.group_y]).
Proof.
  unfold get_recommendations. simpl snd.
  refine (recommend_of_groups (L := AsciiLib.lib) _ [Frames.group_x; Frames.group_y] _).
  vm_compute. reflexivity.
Qed.

(** C10 as stated fails.  In the output for [Frames.fractional] the groups
    "X" and "Y" have the same total play count, -1/2, "Y" has the larger
    recommendation count, 2 against 1, and the score of "Y", [2 * log10(1/2)],
    is strictly below the score of "X", [log10(1/2)]. *)
Lemma priority_score_not_monotone :
  exists out r1 r2,
    snd (get_recommendations (L := AsciiLib.lib) Frames.fractional) = Ok out
    /\ In r1 out /\ In r2 out
    /\ Related_Library_Artists_Total_Play_Count r1
       = Related_Library_Artists_Total_Play_Count r2
    /\ (Recommendation_Count r1 < Recommendation_Count r2)%nat
    /\ np_lt (Priority_Score r2) (Priority_Score r1)
    /\ ~ np_le (Priority_Score r1) (Priority_Score r2).
Proof.
  exists (sort_values [scored Frames.group_x; scored Frames.group_y]),
         (scored Frames.group_x), (scored Frames.group_y).
  assert (Hhalf : (Q2R (-1 # 2) + 1 = / 2)%R) by (unfold Q2R; simpl; lra).
  assert (Hneg : (ln (/ 2) / ln 10 < 0)%R).
  { pose proof ln_10_pos as H10.
    assert (ln (/ 2) < 0)%R by (rewrite <- ln_1; apply ln_increasing; lra).
    unfold Rdiv. apply Rmult_neg_pos; [assumption | apply Rinv_0_lt_compat, H10]. }
  split; [exact fractional_output | split; [| split; [| split; [| split]]]].
  - apply sort_values_In. left. reflexivity.
  - apply sort_values_In. right. left. reflexivity.
  - reflexivity.
  - simpl. lia.
  - simpl. unfold score. simpl g_Total_Play_Count.
    rewrite Hhalf, np_log10_pos by lra. simpl. lra.
Qed.

(** ** Play counts *)

Section PlayCounts.
Context {L : PyLib}.

(** Every retained library artist comes from a row of the selected
    columns by lines 24-25. *)
Lemma library_row_origin (df : DataFrame) (a : Row Q) :
  In a (library df) ->
  exists sel raw,
    getitem_required (ensure_genres df) = Ok sel
    /\ In raw (rows sel) /\ a = coerce raw.
Proof.
  unfold library.
  destruct (getitem_required (ensure_genres df)) as [sel | e]; [| contradiction].
  unfold artist_level. simpl. intros Ha.
  apply filter_In in Ha. destruct Ha as [Ha _].
  apply in_map_iff in Ha. destruct Ha as [raw [<- Hraw]].
  exists sel, raw. repeat split.
  apply (drop_duplicates_from_In _ _ _ Hraw).
Qed.

(** C4, amended.  The play count carried into the pipeline is a number,
    obtained without raising: 0 when the raw cell cannot be parsed as a
    number (null, a string that is not a number), and otherwise the number
    the cell holds or parses to, unchanged.  The play count of a retained
    library artist is therefore at least 0 whenever the number in its raw
    cell, if there is one, is at least 0. *)
Theorem total_plays_coerced (df : DataFrame) (a : Row Q) :
  In a (library df) ->
  exists sel raw,
    getitem_required (ensure_genres df) = Ok sel
    /\ In raw (rows sel)
    /\ Artist a = Artist raw
    /\ (to_numeric (Total_Plays raw) = None -> Total_Plays a = 0%Q)
    /\ (Total_Plays raw = VNull -> Total_Plays a = 0%Q)
    /\ (forall s, Total_Plays raw = VStr s -> parse_number s = None ->
                  Total_Plays a = 0%Q)
    /\ (forall q, to_numeric (Total_Plays raw) = Some q -> Total_Plays a = q)
    /\ ((forall q, to_numeric (Total_Plays raw) = Some q -> (0 <= q)%Q) ->
        (0 <= Total_Plays a)%Q).
Proof.
  intros Ha.
  destruct (library_row_origin df a Ha) as [sel [raw [Hsel [Hraw ->]]]].
  exists sel, raw. simpl.
  split; [exact Hsel | split; [exact Hraw | split; [reflexivity |]]].
  split; [| split; [| split; [| split]]].
  - intros ->. reflexivity.
  - intros ->. reflexivity.
  - intros s -> Hs. simpl. rewrite Hs. reflexivity.
  - intros q ->. reflexivity.
  - intros H. destruct (to_numeric (Total_Plays raw)) as [q |]; simpl.
    + apply H. reflexivity.
    + apply Qle_refl.
Qed.

End PlayCounts.

Lemma total_plays_coerced_witness :
  In (mkRow (VStr "Radiohead") (VStr "Thom Yorke, Portishead") 100%Q (VStr "rock"))
     (library (L := AsciiLib.lib) Frames.scenario)
  /\ exists sel raw,
       getitem_required (ensure_genres Frames.scenario) = Ok sel
       /\ In raw (rows sel)
       /\ VStr "Radiohead" = Artist raw.
Proof.
  assert (H : In (mkRow (VStr "Radiohead") (VStr "Thom Yorke, Portishead") 100%Q (VStr "rock"))
                 (library (L := AsciiLib.lib) Frames.scenario)).
  { vm_compute. left. reflexivity. }
  split; [exact H |].
  destruct (total_plays_coerced (L := AsciiLib.lib) Frames.scenario _ H)
    as [sel [raw [Hsel [Hraw [Ha _]]]]].
  exists sel, raw. split; [exact Hsel | split; [exact Hraw | exact Ha]].
Defined.

(** C4 as stated fails.  The frame [Frames.negative_plays] holds the number
    -5 as play count of its one artist; the call does not raise, and the
    retained library artist carries a play count of -5. *)
Lemma total_plays_can_be_negative :
  raises (snd (get_recommendations (L := AsciiLib.lib) Frames.negative_plays)) = false
  /\ library (L := AsciiLib.lib) Frames.negative_plays
     = [mkRow (VStr "Radiohead") (VStr "Thom Yorke") (-5)%Q (VStr "rock")]
  /\ ~ (forall a, In a (library (L := AsciiLib.lib) Frames.negative_plays) ->
                  (0 <= Total_Plays a)%Q).
Proof.
  assert (E : library (L := AsciiLib.lib) Frames.negative_plays
              = [mkRow (VStr "Radiohead") (VStr "Thom Yorke") (-5)%Q (VStr "rock")])
    by (vm_compute; reflexivity).
  split; [| split; [exact E |]].
  - unfold get_recommendations. simpl snd.
    rewrite (recommend_of_groups (L := AsciiLib.lib) _
               [mkGroup (VStr "Thom Yorke") "Radiohead" 1 (-5) "rock"]).
    + reflexivity.
    + vm_compute. reflexivity.
  - intros H. rewrite E in H. specialize (H _ (or_introl eq_refl)).
    simpl in H. unfold Qle in H. simpl in H. lia.
Qed.

(** ** The caller's frame *)

Lemma has_column_lookup (df : DataFrame) (c : string) :
  has_column df c = false <-> lookup c (data df) = None.
Proof.
  unfold has_column, columns. induction (data df) as [|[c' s] cols IH]; simpl.
  - split; reflexivity.
  - destruct (String.eqb c c'); simpl; [split; discriminate | exact IH].
Qed.

Lemma assign_absent (c : string) (s : Series) (cols : list (string * Series)) :
  lookup c cols = None -> assign c s cols = cols ++ [(c, s)].
Proof.
  induction cols as [|[c' s'] cols IH]; simpl.
  - reflexivity.
  - destruct (String.eqb c c'); [discriminate|].
    intros H. rewrite (IH H). reflexivity.
Qed.

Lemma lookup_app_other (c c' : string) (s : Series) (cols : list (string * Series)) :
  lookup c cols <> None -> lookup c (cols ++ [(c', s)]) = lookup c cols.
Proof.
  induction cols as [|[d t] cols IH]; simpl.
  - intros H. contradiction H. reflexivity.
  - destruct (String.eqb c d); [reflexivity | exact IH].
Qed.

Section CallerFrame.
Context {L : PyLib}.

(** C5, amended.  A call leaves the caller's frame unchanged when the
    frame has an [Artist_Genres] column.  When it has none, the call adds
    one to the caller's frame, after the existing columns, holding the empty
    string in every row; the index and the existing columns, their order,
    dtypes and cells, are unchanged.  This holds whether or not the call
    then raises. *)
Theorem caller_frame_after_call (df : DataFrame) :
  fst (get_recommendations df)
  = (if has_column df "Artist_Genres" then df
     else mkDataFrame (index_len df)
            (data df ++ [("Artist_Genres",
                          mkSeries object (repeat (VStr "") (index_len df)))]))
  /\ index_len (fst (get_recommendations df)) = index_len df
  /\ (forall c, has_column df c = true ->
                lookup c (data (fst (get_recommendations df))) = lookup c (data df)).
Proof.
  unfold get_recommendations, ensure_genres. simpl fst.
  destruct (has_column df "Artist_Genres") eqn:E.
  - repeat split.
  - apply has_column_lookup in E.
    unfold setitem_scalar. rewrite (assign_absent _ _ _ E). simpl.
    repeat split.
    intros c Hc. apply lookup_app_other.
    intros Hn. apply has_column_lookup in Hn. congruence.
Qed.

End CallerFrame.

Lemma caller_frame_after_call_witness :
  has_column Frames.no_genres "Artist" = true
  /\ lookup "Artist" (data (fst (get_recommendations (L := AsciiLib.lib) Frames.no_genres)))
     = lookup "Artist" (data Frames.no_genres).
Proof.
  split; [reflexivity |].
  exact (proj2 (proj2 (caller_frame_after_call (L := AsciiLib.lib) Frames.no_genres))
               "Artist" eq_refl).
Defined.

(** C5 as stated fails.  [Frames.no_genres] has no [Artist_Genres] column;
    after the call the caller's frame has one. *)
Lemma caller_frame_mutated :
  columns Frames.no_genres = ["Artist"; "Similar_Artists"; "Total_Plays"]
  /\ columns (fst (get_recommendations (L := AsciiLib.lib) Frames.no_genres))
     = ["Artist"; "Similar_Artists"; "Total_Plays"; "Artist_Genres"]
  /\ fst (get_recommendations (L := AsciiLib.lib) Frames.no_genres) <> Frames.no_genres.
Proof.
  split; [reflexivity | split; [reflexivity |]].
  intros H. apply (f_equal columns) in H. vm_compute in H. discriminate H.
Qed.

(** ** Names of the candidates *)

Section CandidateNames.
Context {L : PyLib}.

(** What line 34 does guarantee: every [Missing_Artist] is a string, and
    not the empty one. *)
Lemma missing_artist_named
    (df : DataFrame) (out : list Recommendation) (r : Recommendation) :
  snd (get_recommendations df) = Ok out -> In r out ->
  exists s, Missing_Artist r = VStr s /\ s <> "".
Proof.
  intros Hout Hr.
  destruct (output_row df out r Hout Hr) as [x [g [Hx [Hagg ->]]]].
  apply aggregate_ok_inv in Hagg. destruct Hagg as [Hk _].
  apply candidates_In in Hx. destruct Hx as [Hnamed [_ Hin]].
  simpl. rewrite Hk.
  unfold expand in Hin. apply in_flat_map in Hin.
  destruct Hin as [a [_ Hin]].
  unfold explode_row in Hin.
  assert (Hv : Similar_Artists x = VNull \/ exists s, Similar_Artists x = VStr s).
  { destruct (str_split (Similar_Artists a)) as [[|p ps] |].
    - destruct Hin as [<- | []]. left. reflexivity.
    - apply in_map_iff in Hin. destruct Hin as [s [<- _]].
      right. exists s. reflexivity.
    - destruct Hin as [<- | []]. left. reflexivity. }
  unfold named in Hnamed. apply andb_true_iff in Hnamed.
  destruct Hnamed as [Hna Hne].
  destruct Hv as [E | [s E]]; rewrite E in *.
  - discriminate.
  - exists s. split; [reflexivity|].
    intros ->. simpl in Hne. discriminate.
Qed.

End CandidateNames.

Lemma spaced_output :
  snd (get_recommendations (L := AsciiLib.lib) Frames.spaced)
  = Ok (sort_values (map scored Frames.spaced_groups)).
Proof.
  unfold get_recommendations. simpl snd.
  apply (recommend_of_groups (L := AsciiLib.lib)).
  vm_compute. reflexivity.
Qed.

(** C6 fails on the code.  For a library artist whose similar artists read
    [" , Thom Yorke , Portishead"] the split on [,\s*] gives [" "],
    ["Thom Yorke "] and ["Portishead"]; line 34 compares with the empty
    string without trimming, so the output recommends an artist whose name is
    a single space and an artist whose name ends with a space. *)
Lemma whitespace_candidates_survive :
  re_split (L := AsciiLib.lib) " , Thom Yorke , Portishead"
  = [" "; "Thom Yorke "; "Portishead"]
  /\ exists out,
       snd (get_recommendations (L := AsciiLib.lib) Frames.spaced) = Ok out
       /\ In (VStr " ") (map Missing_Artist out)
       /\ In (VStr "Thom Yorke ") (map Missing_Artist out)
       /\ strip (L := AsciiLib.lib) " " = ""
       /\ strip (L := AsciiLib.lib) "Thom Yorke " <> "Thom Yorke ".
Proof.
  split; [reflexivity |].
  exists (sort_values (map scored Frames.spaced_groups)).
  split; [exact spaced_output |].
  assert (Hin : forall g, In g Frames.spaced_groups ->
                          In (g_Similar_Artists g)
                             (map Missing_Artist (sort_values (map scored Frames.spaced_groups)))).
  { intros g Hg. apply in_map_iff. exists (scored g). split; [reflexivity |].
    apply sort_values_In. apply in_map, Hg. }
  split; [| split; [| split]].
  - apply (Hin (mkGroup (VStr " ") "Radiohead" 1 100 "rock")). left. reflexivity.
  - apply (Hin (mkGroup (VStr "Thom Yorke ") "Radiohead" 1 100 "rock")).
    right. right. left. reflexivity.
  - reflexivity.
  - vm_compute. discriminate.
Qed.

(** ** Contributing rows and contributing artists *)

Lemma value_eqb_sym (a b : value) : value_eqb a b = value_eqb b a.
Proof.
  destruct a as [|s|p], b as [|t|q]; simpl; try reflexivity.
  - apply String.eqb_sym.
  - apply eq_true_iff_eq. rewrite !Qeq_bool_iff.
    split; intros H; symmetry; exact H.
Qed.

Lemma filter_flat_map_comm {A B : Type} (f : B -> bool) (g : A -> list B) (l : list A) :
  filter f (flat_map g l) = flat_map (fun a => filter f (g a)) l.
Proof.
  induction l as [|a l IH]; simpl.
  - reflexivity.
  - rewrite filter_app, IH. reflexivity.
Qed.

Lemma filter_filter_and {A : Type} (f g : A -> bool) (l : list A) :
  filter f (filter g l) = filter (fun x => g x && f x) l.
Proof.
  induction l as [|a l IH]; simpl.
  - reflexivity.
  - destruct (g a); simpl; [destruct (f a); rewrite IH; reflexivity | exact IH].
Qed.

Lemma filter_all {A : Type} (f : A -> bool) (l : list A) :
  (forall x, In x l -> f x = true) -> filter f l = l.
Proof.
  induction l as [|a l IH]; simpl; intros H.
  - reflexivity.
  - rewrite (H a (or_introl eq_refl)). f_equal. apply IH.
    intros x Hx. apply H. right. exact Hx.
Qed.

Lemma filter_none {A : Type} (f : A -> bool) (l : list A) :
  (forall x, In x l -> f x = false) -> filter f l = [].
Proof.
  induction l as [|a l IH]; simpl; intros H.
  - reflexivity.
  - rewrite (H a (or_introl eq_refl)). apply IH.
    intros x Hx. apply H. right. exact Hx.
Qed.

Lemma existsb_filter {A : Type} (f : A -> bool) (l : list A) :
  existsb f l = match filter f l with [] => false | _ :: _ => true end.
Proof.
  induction l as [|a l IH]; simpl.
  - reflexivity.
  - destruct (f a); simpl; [reflexivity | exact IH].
Qed.

(** A [flat_map] whose pieces hold at most one item is a [filter]. *)
Lemma flat_map_singletons {A B C : Type}
    (F : A -> list B) (p : B -> C) (q : A -> C) (l : list A) :
  (forall a, In a l -> (List.length (F a) <= 1)%nat) ->
  (forall a x, In a l -> In x (F a) -> p x = q a) ->
  map p (flat_map F l)
  = map q (filter (fun a => match F a with [] => false | _ :: _ => true end) l).
Proof.
  induction l as [|a l IH]; simpl; intros Hlen Hpq.
  - reflexivity.
  - assert (IH' : map p (flat_map F l)
                  = map q (filter (fun a => match F a with [] => false | _ :: _ => true end) l)).
    { apply IH.
      - intros b Hb. apply Hlen. right. exact Hb.
      - intros b x Hb Hx. apply (Hpq b x); [right; exact Hb | exact Hx]. }
    pose proof (Hlen a (or_introl eq_refl)) as Ha.
    pose proof (Hpq a) as Hq.
    destruct (F a) as [|x [|y t]]; simpl in *.
    + exact IH'.
    + rewrite IH'. f_equal. apply Hq; [left; reflexivity | left; reflexivity].
    + lia.
Qed.

Lemma ForallOrdPairs_filter {A : Type} (R : A -> A -> Prop) (f : A -> bool) (l : list A) :
  ForallOrdPairs R l -> ForallOrdPairs R (filter f l).
Proof.
  induction 1 as [|a l Ha _ IH]; simpl.
  - constructor.
  - destruct (f a); [| exact IH].
    constructor; [| exact IH].
    apply Forall_forall. intros y Hy. apply filter_In in Hy.
    rewrite Forall_forall in Ha. apply Ha, Hy.
Qed.

Lemma ForallOrdPairs_map {A B : Type} (R : A -> A -> Prop) (S : B -> B -> Prop)
    (f : A -> B) (l : list A) :
  (forall x y, R x y -> S (f x) (f y)) ->
  ForallOrdPairs R l -> ForallOrdPairs S (map f l).
Proof.
  intros HRS. induction 1 as [|a l Ha _ IH]; simpl.
  - constructor.
  - constructor; [| exact IH].
    apply Forall_forall. intros y Hy. apply in_map_iff in Hy.
    destruct Hy as [x [<- Hx]]. apply HRS.
    rewrite Forall_forall in Ha. apply Ha, Hx.
Qed.

Lemma drop_duplicates_from_distinct {P : Type} (l : list (Row P)) :
  forall seen,
    distinct_artists (drop_duplicates_from seen l)
    /\ forall r, In r (drop_duplicates_from seen l) ->
                 existsb (value_eqb (Artist r)) seen = false.
Proof.
  unfold distinct_artists.
  induction l as [|x l IH]; simpl; intros seen.
  - split; [constructor | intros r []].
  - destruct (existsb (value_eqb (Artist x)) seen) eqn:E.
    + apply IH.
    + destruct (IH (Artist x :: seen)) as [Hd Hs]. split.
      * constructor; [| exact Hd].
        apply Forall_forall. intros r Hr.
        specialize (Hs r Hr). simpl in Hs.
        apply orb_false_iff in Hs. destruct Hs as [Hs _].
        rewrite value_eqb_sym. exact Hs.
      * intros r [<- | Hr]; [exact E |].
        specialize (Hs r Hr). simpl in Hs.
        apply orb_false_iff in Hs. destruct Hs as [_ Hs]. exact Hs.
Qed.

Section Contributing.
Context {L : PyLib}.

Lemma library_distinct (df : DataFrame) : distinct_artists (library df).
Proof.
  unfold library.
  destruct (getitem_required (ensure_genres df)) as [sel | e]; [| constructor].
  unfold artist_level. simpl.
  apply ForallOrdPairs_filter.
  apply ForallOrdPairs_map
    with (R := fun x y : Row value => value_eqb (Artist x) (Artist y) = false).
  - intros x y H. exact H.
  - apply (drop_duplicates_from_distinct (rows sel) []).
Qed.

Lemma library_notna (df : DataFrame) (a : Row Q) :
  In a (library df) -> notna (Artist a) = true.
Proof.
  unfold library.
  destruct (getitem_required (ensure_genres df)) as [sel | e]; [| contradiction].
  unfold artist_level. simpl. intros H.
  apply filter_In in H. destruct H as [_ H]. exact H.
Qed.

Lemma explode_row_fields (a x : Row Q) :
  In x (explode_row a) ->
  Artist x = Artist a /\ Total_Plays x = Total_Plays a.
Proof.
  unfold explode_row.
  destruct (str_split (Similar_Artists a)) as [[|p ps] |]; intros H.
  - destruct H as [<- | []]. split; reflexivity.
  - apply in_map_iff in H. destruct H as [s [<- _]]. split; reflexivity.
  - destruct H as [<- | []]. split; reflexivity.
Qed.

Lemma contribution_fields (artist_df : list (Row Q)) (a x : Row Q) :
  In x (contribution artist_df a) ->
  Artist x = Artist a /\ Total_Plays x = Total_Plays a.
Proof.
  unfold contribution, fuzzy_filter. intros H.
  apply filter_In in H. destruct H as [H _].
  apply filter_In in H. destruct H as [H _].
  apply explode_row_fields, H.
Qed.

Lemma candidates_by_artist (artist_df : list (Row Q)) :
  candidates artist_df = flat_map (contribution artist_df) artist_df.
Proof.
  unfold candidates, contribution, fuzzy_filter, expand.
  rewrite !filter_flat_map_comm. reflexivity.
Qed.

Lemma group_rows_by_artist (artist_df : list (Row Q)) (k : value) :
  group_rows (candidates artist_df) k
  = flat_map (fun a => filter (fun r => value_eqb (Similar_Artists r) k)
                              (contribution artist_df a))
             artist_df.
Proof.
  unfold group_rows. rewrite candidates_by_artist.
  apply filter_flat_map_comm.
Qed.

(** Among distinct names at most one equals the key of the group. *)
Lemma one_name_per_key (a : Row Q) (k : value) (q : Row Q -> bool) (ps : list string) :
  NoDup ps ->
  (forall x, q x = true -> value_eqb (Similar_Artists x) k = true) ->
  (List.length (filter q (map (fun p => with_similar a (VStr p)) ps)) <= 1)%nat.
Proof.
  intros Hnd Hq. induction Hnd as [|p ps Hp _ IH]; simpl.
  - lia.
  - destruct (q (with_similar a (VStr p))) eqn:E; [| exact IH].
    rewrite filter_none; [simpl; lia |].
    intros x Hx. apply in_map_iff in Hx. destruct Hx as [p' [<- Hp']].
    destruct (q (with_similar a (VStr p'))) eqn:E'; [| reflexivity].
    apply Hq in E. apply Hq in E'. simpl in E, E'.
    destruct k as [|s|n]; simpl in E, E'; try discriminate.
    apply String.eqb_eq in E. apply String.eqb_eq in E'.
    subst. contradiction.
Qed.

Lemma one_row_per_artist (artist_df : list (Row Q)) (a : Row Q) (k : value) :
  (forall s, Similar_Artists a = VStr s -> NoDup (re_split s)) ->
  (List.length (filter (fun r => value_eqb (Similar_Artists r) k)
                       (contribution artist_df a)) <= 1)%nat.
Proof.
  intros Hnd. unfold contribution, fuzzy_filter.
  rewrite !filter_filter_and.
  match goal with
  | |- (List.length (filter ?f _) <= 1)%nat => set (q := f)
  end.
  assert (Hq : forall x, q x = true -> value_eqb (Similar_Artists x) k = true).
  { intros x H. unfold q in H.
    apply andb_true_iff in H. destruct H as [_ H].
    apply andb_true_iff in H. destruct H as [_ H]. exact H. }
  clearbody q.
  unfold explode_row, str_split.
  destruct (Similar_Artists a) as [|s|n] eqn:Es.
  - simpl. destruct (q (with_similar a VNull)); simpl; lia.
  - specialize (Hnd s eq_refl).
    destruct (re_split s) as [|p ps].
    + simpl. destruct (q (with_similar a VNull)); simpl; lia.
    + apply (one_name_per_key a k q (p :: ps) Hnd Hq).
  - simpl. destruct (q (with_similar a VNull)); simpl; lia.
Qed.

(** C7, amended.  For every row of the output, [Recommendation_Count] is
    the number of candidate rows in its group and the total play count is
    the sum of [Total_Plays] over these rows; a library artist who names a
    similar artist several times contributes that many rows.  When the
    names each library artist lists are pairwise distinct, the rows of the
    group are the contributing library artists themselves, each once: the
    artists of the rows are pairwise different, and the count and the total
    are the number of contributing library artists and the sum of their
    play counts. *)
Theorem totals_over_contributing_rows
    (df : DataFrame) (out : list Recommendation) (r : Recommendation) :
  snd (get_recommendations df) = Ok out -> In r out ->
  Recommendation_Count r
  = List.length (group_rows (candidates (library df)) (Missing_Artist r))
  /\ Related_Library_Artists_Total_Play_Count r
     = sum (map (@Total_Plays Q)
                (group_rows (candidates (library df)) (Missing_Artist r)))
  /\ (entries_distinct (library df) ->
      distinct_artists (contributors (library df) (Missing_Artist r))
      /\ map (@Artist Q) (group_rows (candidates (library df)) (Missing_Artist r))
         = map (@Artist Q) (contributors (library df) (Missing_Artist r))
      /\ Recommendation_Count r
         = List.length (contributors (library df) (Missing_Artist r))
      /\ Related_Library_Artists_Total_Play_Count r
         = sum (map (@Total_Plays Q)
                    (contributors (library df) (Missing_Artist r)))).
Proof.
  intros Hout Hr.
  destruct (output_row df out r Hout Hr) as [x [g [_ [Hagg ->]]]].
  apply aggregate_ok_inv in Hagg. destruct Hagg as [Hk [Hc Ht]].
  simpl. rewrite Hk in *.
  set (k := Similar_Artists x) in *.
  assert (Hcount : g_Recommendation_Count g
                   = List.length (group_rows (candidates (library df)) k)).
  { rewrite Hc, filter_all; [apply length_map |].
    intros v Hv. apply in_map_iff in Hv. destruct Hv as [y [<- Hy]].
    unfold group_rows in Hy. apply filter_In in Hy. destruct Hy as [Hy _].
    rewrite candidates_by_artist in Hy. apply in_flat_map in Hy.
    destruct Hy as [a [Ha Hy]].
    apply contribution_fields in Hy. destruct Hy as [-> _].
    apply (library_notna df a Ha). }
  split; [exact Hcount | split; [exact Ht |]].
  intros Hnd.
  assert (Hfilter : contributors (library df) k
            = filter (fun a => match filter (fun r => value_eqb (Similar_Artists r) k)
                                            (contribution (library df) a)
                               with [] => false | _ :: _ => true end)
                     (library df)).
  { unfold contributors. apply filter_ext. intros a. apply existsb_filter. }
  assert (Hone : forall a, In a (library df) ->
            (List.length (filter (fun r => value_eqb (Similar_Artists r) k)
                                 (contribution (library df) a)) <= 1)%nat).
  { intros a Ha. apply one_row_per_artist. intros s Hs. apply (Hnd a s Ha Hs). }
  assert (HA : map (@Artist Q) (group_rows (candidates (library df)) k)
               = map (@Artist Q) (contributors (library df) k)).
  { rewrite group_rows_by_artist, Hfilter.
    apply flat_map_singletons; [exact Hone |].
    intros a y _ Hy. apply filter_In in Hy. destruct Hy as [Hy _].
    apply (contribution_fields _ _ _ Hy). }
  assert (HT : map (@Total_Plays Q) (group_rows (candidates (library df)) k)
               = map (@Total_Plays Q) (contributors (library df) k)).
  { rewrite group_rows_by_artist, Hfilter.
    apply flat_map_singletons; [exact Hone |].
    intros a y _ Hy. apply filter_In in Hy. destruct Hy as [Hy _].
    apply (contribution_fields _ _ _ Hy). }
  split; [| split; [exact HA | split]].
  - unfold contributors. apply ForallOrdPairs_filter, library_distinct.
  - rewrite Hcount.
    rewrite <- (length_map (@Artist Q) (group_rows _ _)), HA. apply length_map.
  - rewrite Ht, HT. reflexivity.
Qed.

End Contributing.

Lemma scenario_library :
  library (L := AsciiLib.lib) Frames.scenario
  = [mkRow (VStr "Radiohead") (VStr "Thom Yorke, Portishead") 100%Q (VStr "rock");
     mkRow (VStr "Portishead") (VStr "") 50%Q (VStr "trip hop")].
Proof. vm_compute. reflexivity. Qed.

Lemma scenario_entries_distinct :
  entries_distinct (L := AsciiLib.lib) (library (L := AsciiLib.lib) Frames.scenario).
Proof.
  intros a s Ha Hs. rewrite scenario_library in Ha.
  destruct Ha as [<- | [<- | []]]; simpl in Hs; injection Hs as <-; vm_compute.
  - constructor; [| constructor; [| constructor]].
    + intros [H | []]. discriminate H.
    + intros [].
  - constructor; [| constructor]. intros [].
Qed.

Lemma totals_over_contributing_rows_witness :
  snd (get_recommendations (L := AsciiLib.lib) Frames.scenario)
  = Ok (sort_values [scored Frames.thom_yorke])
  /\ In (scored Frames.thom_yorke) (sort_values [scored Frames.thom_yorke])
  /\ entries_distinct (L := AsciiLib.lib) (library (L := AsciiLib.lib) Frames.scenario)
  /\ Related_Library_Artists_Total_Play_Count (scored Frames.thom_yorke)
     = sum (map (@Total_Plays Q)
                (contributors (L := AsciiLib.lib)
                   (library (L := AsciiLib.lib) Frames.scenario) (VStr "Thom Yorke"))).
Proof.
  split; [exact scenario_output | split; [exact scenario_row |]].
  split; [exact scenario_entries_distinct |].
  exact (proj2 (proj2 (proj2
           (proj2 (proj2 (totals_over_contributing_rows (L := AsciiLib.lib)
                            Frames.scenario _ _ scenario_output scenario_row))
                  scenario_entries_distinct)))).
Defined.

Lemma repeated_output :
  snd (get_recommendations (L := AsciiLib.lib) Frames.repeated)
  = Ok (sort_values (map scored Frames.repeated_groups)).
Proof.
  unfold get_recommendations. simpl snd.
  apply (recommend_of_groups (L := AsciiLib.lib)).
  vm_compute. reflexivity.
Qed.

(** C7 as stated fails.  In [Frames.repeated] the one library artist,
    with 100 plays, lists "Thom Yorke" twice.  The split keeps both entries,
    the artist contributes two rows to the group of "Thom Yorke", and the
    output counts 2 recommendations and 200 plays where the sum over the
    distinct contributing artists is 100. *)
Lemma repeated_name_counted_twice :
  re_split (L := AsciiLib.lib) "Thom Yorke, Thom Yorke" = ["Thom Yorke"; "Thom Yorke"]
  /\ ~ NoDup (re_split (L := AsciiLib.lib) "Thom Yorke, Thom Yorke")
  /\ exists out r,
       snd (get_recommendations (L := AsciiLib.lib) Frames.repeated) = Ok out
       /\ In r out
       /\ Missing_Artist r = VStr "Thom Yorke"
       /\ Related_Library_Artists r = "Radiohead"
       /\ Recommendation_Count r = 2%nat
       /\ Related_Library_Artists_Total_Play_Count r = 200%Q
       /\ contributors (L := AsciiLib.lib)
            (library (L := AsciiLib.lib) Frames.repeated) (Missing_Artist r)
          = [mkRow (VStr "Radiohead") (VStr "Thom Yorke, Thom Yorke") 100%Q (VStr "rock")]
       /\ sum (map (@Total_Plays Q)
                   (contributors (L := AsciiLib.lib)
                      (library (L := AsciiLib.lib) Frames.repeated) (Missing_Artist r)))
          = 100%Q.
Proof.
  split; [reflexivity | split].
  - vm_compute. intros H. inversion H as [| x l Hx _]; subst.
    apply Hx. left. reflexivity.
  - exists (sort_values (map scored Frames.repeated_groups)),
           (scored (mkGroup (VStr "Thom Yorke") "Radiohead" 2 200 "rock")).
    split; [exact repeated_output |].
    split; [apply sort_values_In; left; reflexivity |].
    repeat split; vm_compute; reflexivity.
Qed.

(** ** Failures *)

(** C8 fails on the code.  [Frames.no_similar] has the three required
    columns and the optional one; its [Similar_Artists] column holds only
    nulls and has dtype [float64].  The [.str] accessor of line 33 refuses
    the column and the call raises [AttributeError]. *)
Lemma null_similar_artists_raise :
  (forall c, In c required -> has_column Frames.no_similar c = true)
  /\ snd (get_recommendations (L := AsciiLib.lib) Frames.no_similar)
     = Raise AttributeError.
Proof.
  split.
  - intros c Hc. simpl in Hc.
    destruct Hc as [<- | [<- | [<- | [<- | []]]]]; reflexivity.
  - assert (E : groups (L := AsciiLib.lib) (ensure_genres Frames.no_similar)
                = Raise AttributeError) by (vm_compute; reflexivity).
    change (recommend (L := AsciiLib.lib) (ensure_genres Frames.no_similar)
            = Raise AttributeError).
    unfold recommend. rewrite E. reflexivity.
Qed.

(** What does hold of the failures: a [KeyError] is raised exactly when a
    required column is absent, and it names the absent columns; the other
    stages raise nothing but [AttributeError] and [TypeError]. *)

Lemma has_column_assign (c c' : string) (s : Series) (cols : list (string * Series)) :
  existsb (String.eqb c) (map fst (assign c' s cols))
  = existsb (String.eqb c) (map fst cols) || String.eqb c c'.
Proof.
  induction cols as [|[d t] cols IH]; simpl.
  - apply orb_false_r.
  - destruct (String.eqb c' d) eqn:E; simpl.
    + apply String.eqb_eq in E. subst d.
      destruct (String.eqb c c'); simpl; [reflexivity |].
      destruct (existsb (String.eqb c) (map fst cols)); reflexivity.
    + rewrite IH. destruct (String.eqb c d); reflexivity.
Qed.

Lemma lookup_assign_other (c c' : string) (s : Series) (cols : list (string * Series)) :
  String.eqb c c' = false -> lookup c (assign c' s cols) = lookup c cols.
Proof.
  intros Hc. induction cols as [|[d t] cols IH]; simpl.
  - rewrite Hc. reflexivity.
  - destruct (String.eqb c' d) eqn:E; simpl.
    + apply String.eqb_eq in E. subst d. rewrite Hc. reflexivity.
    + destruct (String.eqb c d); [reflexivity | exact IH].
Qed.

Lemma str_accessor_raise (s : Series) (e : exception) :
  str_accessor s = Raise e -> e = AttributeError.
Proof.
  unfold str_accessor.
  destruct (dtype s); try (intros H; injection H as <-; reflexivity).
  destruct (filter notna (values s)) as [|v l]; [discriminate |].
  destruct (existsb is_str (v :: l)); [discriminate |].
  intros H. injection H as <-. reflexivity.
Qed.

Lemma strings_of_raise (vs : list value) (e : exception) :
  strings_of vs = Raise e -> e = TypeError.
Proof.
  induction vs as [|v vs IH]; simpl; [discriminate |].
  destruct v as [|s|q]; try (intros H; injection H as <-; reflexivity).
  destruct (strings_of vs) as [l | e']; simpl; [discriminate |].
  intros H. injection H as <-. apply IH. reflexivity.
Qed.

Lemma strings_of_text (vs : list value) :
  Forall (fun v => is_str v = true) vs -> exists l, strings_of vs = Ok l.
Proof.
  induction 1 as [|v vs Hv _ [l IH]]; simpl.
  - exists []. reflexivity.
  - destruct v as [|s|q]; try discriminate.
    rewrite IH. simpl. exists (s :: l). reflexivity.
Qed.

Lemma mapM_raise {A B : Type} (f : A -> result B) (l : list A) (e : exception) :
  mapM f l = Raise e -> exists a, In a l /\ f a = Raise e.
Proof.
  induction l as [|a l IH]; simpl; [discriminate |].
  destruct (f a) as [b | e'] eqn:Ea; simpl.
  - destruct (mapM f l) as [bs | e'']; simpl; [discriminate |].
    intros H. injection H as <-.
    destruct (IH eq_refl) as [a' [Ha' Hf]].
    exists a'. split; [right; exact Ha' | exact Hf].
  - intros H. injection H as <-. exists a. split; [left; reflexivity | exact Ea].
Qed.

Lemma mapM_all_ok {A B : Type} (f : A -> result B) (l : list A) :
  (forall a, In a l -> exists b, f a = Ok b) -> exists bs, mapM f l = Ok bs.
Proof.
  induction l as [|a l IH]; simpl; intros H.
  - exists []. reflexivity.
  - destruct (H a (or_introl eq_refl)) as [b Hb].
    destruct IH as [bs Hbs]; [intros x Hx; apply H; right; exact Hx |].
    rewrite Hb, Hbs. simpl. exists (b :: bs). reflexivity.
Qed.

Lemma getitem_required_ok (df : DataFrame) :
  (forall c, In c required -> has_column df c = true) ->
  exists a s t g,
    lookup "Artist" (data df) = Some a
    /\ lookup "Similar_Artists" (data df) = Some s
    /\ lookup "Total_Plays" (data df) = Some t
    /\ lookup "Artist_Genres" (data df) = Some g
    /\ getitem_required df
       = Ok (mkArtistFrame (dtype s)
               (map (fun i => mkRow (cell a i) (cell s i) (cell t i) (cell g i))
                    (seq 0 (index_len df)))).
Proof.
  intros H.
  assert (Hl : forall c, In c required -> exists x, lookup c (data df) = Some x).
  { intros c Hc. specialize (H c Hc).
    destruct (lookup c (data df)) as [x |] eqn:E; [exists x; reflexivity |].
    apply has_column_lookup in E. congruence. }
  destruct (Hl "Artist") as [a Ha]; [simpl; tauto |].
  destruct (Hl "Similar_Artists") as [s Hs]; [simpl; tauto |].
  destruct (Hl "Total_Plays") as [t Ht]; [simpl; tauto |].
  destruct (Hl "Artist_Genres") as [g Hg]; [simpl; tauto |].
  exists a, s, t, g. unfold getitem_required. rewrite Ha, Hs, Ht, Hg.
  repeat split.
Qed.

Lemma getitem_required_raise (df : DataFrame) (e : exception) :
  getitem_required df = Raise e ->
  e = KeyError (filter (fun c => negb (has_column df c)) required)
  /\ exists c, In c required /\ has_column df c = false.
Proof.
  intros H.
  assert (He : e = KeyError (filter (fun c => negb (has_column df c)) required)).
  { unfold getitem_required in H.
    destruct (lookup "Artist" (data df)); [| injection H as <-; reflexivity].
    destruct (lookup "Similar_Artists" (data df)); [| injection H as <-; reflexivity].
    destruct (lookup "Total_Plays" (data df)); [| injection H as <-; reflexivity].
    destruct (lookup "Artist_Genres" (data df)); [discriminate |].
    injection H as <-. reflexivity. }
  split; [exact He |].
  destruct (forallb (has_column df) required) eqn:E.
  - rewrite forallb_forall in E.
    destruct (getitem_required_ok df E) as [a [s [t [g [_ [_ [_ [_ Hok]]]]]]]].
    congruence.
  - assert (Hex : existsb (fun c => negb (has_column df c)) required = true).
    { clear - E. induction required as [|c l IH]; simpl in *; [discriminate |].
      destruct (has_column df c); simpl in *; [apply IH, E | reflexivity]. }
    apply existsb_exists in Hex. destruct Hex as [c [Hc Hn]].
    exists c. split; [exact Hc | apply negb_true_iff, Hn].
Qed.

Lemma nth_Forall {A : Type} (P : A -> Prop) (l : list A) (d : A) (i : nat) :
  Forall P l -> P d -> P (nth i l d).
Proof.
  intros Hl Hd. revert i. induction Hl as [|x l Hx _ IH]; intros [|i]; simpl; auto.
Qed.

Lemma getitem_required_ok_inv (df : DataFrame) (sel : ArtistFrame value) :
  getitem_required df = Ok sel -> forall c, In c required -> has_column df c = true.
Proof.
  unfold getitem_required. intros H c Hc.
  destruct (has_column df c) eqn:E; [reflexivity |].
  apply has_column_lookup in E.
  destruct (lookup "Artist" (data df)) eqn:Ea;
    destruct (lookup "Similar_Artists" (data df)) eqn:Es;
    destruct (lookup "Total_Plays" (data df)) eqn:Et;
    destruct (lookup "Artist_Genres" (data df)) eqn:Eg; try discriminate.
  simpl in Hc. destruct Hc as [<- | [<- | [<- | [<- | []]]]]; congruence.
Qed.

Section Failures.
Context {L : PyLib}.

Lemma ensure_genres_has (df : DataFrame) (c : string) :
  has_column (ensure_genres df) c
  = has_column df c || String.eqb c "Artist_Genres".
Proof.
  unfold ensure_genres.
  destruct (has_column df "Artist_Genres") eqn:E.
  - destruct (String.eqb c "Artist_Genres") eqn:Ec.
    + apply String.eqb_eq in Ec. subst c. rewrite E. reflexivity.
    + rewrite orb_false_r. reflexivity.
  - unfold has_column, columns, setitem_scalar. simpl.
    apply has_column_assign.
Qed.

Lemma ensure_genres_lookup (df : DataFrame) (c : string) :
  String.eqb c "Artist_Genres" = false ->
  lookup c (data (ensure_genres df)) = lookup c (data df).
Proof.
  intros Hc. unfold ensure_genres.
  destruct (has_column df "Artist_Genres"); [reflexivity |].
  unfold setitem_scalar. simpl. apply lookup_assign_other, Hc.
Qed.

Lemma aggregate_raise (recs : list (Row Q)) (k : value) (e : exception) :
  aggregate recs k = Raise e -> e = TypeError.
Proof.
  unfold aggregate.
  destruct (strings_of (unique (map (@Artist Q) (group_rows recs k)))) as [l | e'] eqn:E;
    simpl; [discriminate |].
  intros H. injection H as <-. apply (strings_of_raise _ _ E).
Qed.

Lemma groups_raise (df : DataFrame) (e : exception) :
  groups df = Raise e ->
  getitem_required df = Raise e \/ e = AttributeError \/ e = TypeError.
Proof.
  unfold groups.
  destruct (getitem_required df) as [sel | e'] eqn:G; simpl.
  - destruct (str_accessor _) as [vs | e'] eqn:S; simpl.
    + intros H. right. right. unfold summarize in H.
      apply mapM_raise in H. destruct H as [k [_ H]].
      apply (aggregate_raise _ _ _ H).
    + intros H. injection H as <-. right. left. apply (str_accessor_raise _ _ S).
  - intros H. injection H as <-. left. reflexivity.
Qed.

Lemma recommend_raise (df : DataFrame) (e : exception) :
  recommend df = Raise e <-> groups df = Raise e.
Proof.
  unfold recommend. destruct (groups df) as [gs | e']; simpl.
  - split; discriminate.
  - split; intros H; injection H as <-; reflexivity.
Qed.

(** X9.  The structural failure: the call raises [KeyError] exactly when one of
    [Artist], [Similar_Artists], [Total_Plays] is not a column of the input,
    and the error names the columns that are absent. *)
Lemma key_error_iff_column_absent (df : DataFrame) :
  ((exists m, snd (get_recommendations df) = Raise (KeyError m))
   <-> (exists c, In c ["Artist"; "Similar_Artists"; "Total_Plays"]
                  /\ has_column df c = false))
  /\ (forall m, snd (get_recommendations df) = Raise (KeyError m) ->
                m = filter (fun c => negb (has_column df c))
                           ["Artist"; "Similar_Artists"; "Total_Plays"]).
Proof.
  change (snd (get_recommendations df)) with (recommend (ensure_genres df)).
  assert (Hnames : filter (fun c => negb (has_column (ensure_genres df) c)) required
                   = filter (fun c => negb (has_column df c))
                            ["Artist"; "Similar_Artists"; "Total_Plays"]).
  { unfold required. simpl. rewrite !ensure_genres_has. simpl.
    rewrite !orb_false_r, orb_true_r. simpl.
    destruct (has_column df "Artist"), (has_column df "Similar_Artists"),
      (has_column df "Total_Plays"); reflexivity. }
  assert (Hkey : forall m, recommend (ensure_genres df) = Raise (KeyError m) ->
                           getitem_required (ensure_genres df) = Raise (KeyError m)).
  { intros m H. apply recommend_raise in H. apply groups_raise in H.
    destruct H as [H | [H | H]]; [exact H | discriminate | discriminate]. }
  split; [split |].
  - intros [m H]. apply Hkey in H.
    apply getitem_required_raise in H. destruct H as [_ [c [Hc Hn]]].
    rewrite ensure_genres_has in Hn. apply orb_false_iff in Hn.
    destruct Hn as [Hn Hc'].
    exists c. split; [| exact Hn].
    simpl in Hc. destruct Hc as [<- | [<- | [<- | [<- | []]]]];
      simpl; try tauto. discriminate Hc'.
  - intros [c [Hc Hn]].
    destruct (getitem_required (ensure_genres df)) as [sel | e] eqn:G.
    + pose proof (getitem_required_ok_inv _ _ G c) as Hy.
      rewrite ensure_genres_has, Hn in Hy.
      simpl in Hc. destruct Hc as [<- | [<- | [<- | []]]];
        (discriminate Hy; [simpl; tauto]).
    + destruct (getitem_required_raise _ _ G) as [-> _].
      eexists. apply recommend_raise. unfold groups. rewrite G. reflexivity.
  - intros m H. apply Hkey in H.
    apply getitem_required_raise in H. destruct H as [H _].
    injection H as ->. exact Hnames.
Qed.

End Failures.

Section Conforming.
Context {L : PyLib}.

Lemma drop_duplicates_In {P : Type} (l : list (Row P)) (r : Row P) :
  In r (drop_duplicates l) -> In r l.
Proof. apply drop_duplicates_from_In. Qed.

(** On an input that follows the contract, every retained library artist
    has a name that is text and similar artists that are text or null. *)
Lemma conforming_library (df : DataFrame) :
  conforming df ->
  exists sel,
    getitem_required (ensure_genres df) = Ok sel
    /\ Similar_Artists_dtype sel = object
    /\ forall x, In x (rows (artist_level sel)) ->
                 is_str (Artist x) = true /\ text_or_null (Similar_Artists x).
Proof.
  intros [Hcols [Hartist Hsimilar]].
  destruct (getitem_required_ok (ensure_genres df)) as [a [s [t [g [Ha [Hs [_ [_ Hok]]]]]]]].
  { intros c Hc. rewrite ensure_genres_has.
    simpl in Hc. destruct Hc as [<- | [<- | [<- | [<- | []]]]];
      try (rewrite Hcols by (simpl; tauto); reflexivity).
    apply orb_true_r. }
  rewrite ensure_genres_lookup in Ha by reflexivity.
  rewrite ensure_genres_lookup in Hs by reflexivity.
  destruct (Hsimilar s Hs) as [Hdtype Hs_text].
  pose proof (Hartist a Ha) as Ha_text.
  eexists. split; [exact Hok | split; [exact Hdtype |]].
  intros x Hx. unfold artist_level in Hx. simpl in Hx.
  apply filter_In in Hx. destruct Hx as [Hx Hn].
  apply in_map_iff in Hx. destruct Hx as [raw [<- Hraw]].
  apply drop_duplicates_In in Hraw.
  apply in_map_iff in Hraw. destruct Hraw as [i [<- _]].
  simpl in *.
  assert (Ta : text_or_null (cell a i)).
  { apply (nth_Forall text_or_null (values a) VNull i Ha_text). left. reflexivity. }
  assert (Ts : text_or_null (cell s i)).
  { apply (nth_Forall text_or_null (values s) VNull i Hs_text). left. reflexivity. }
  split; [| exact Ts].
  destruct Ta as [E | E]; [rewrite E in Hn; discriminate | exact E].
Qed.

(** X10.  The part of C8 that holds: an input that follows the contract never
    raises, whatever its play counts, genres, null names and empty lists of
    similar artists. *)
Lemma conforming_never_raises (df : DataFrame) :
  conforming df -> exists out, snd (get_recommendations df) = Ok out.
Proof.
  intros Hc.
  destruct (conforming_library df Hc) as [sel [Hsel [Hdtype Hrows]]].
  change (snd (get_recommendations df)) with (recommend (ensure_genres df)).
  unfold recommend, groups. rewrite Hsel. simpl.
  set (lib := filter (fun r => notna (Artist r)) (map coerce (drop_duplicates (rows sel)))) in *.
  assert (Hacc : exists vs,
             str_accessor (mkSeries (Similar_Artists_dtype sel)
                                    (map (@Similar_Artists Q) lib)) = Ok vs).
  { unfold str_accessor. simpl. rewrite Hdtype.
    destruct (filter notna (map (@Similar_Artists Q) lib)) as [|v l] eqn:F.
    - eexists. reflexivity.
    - assert (Hv : In v (filter notna (map (@Similar_Artists Q) lib)))
        by (rewrite F; left; reflexivity).
      apply filter_In in Hv. destruct Hv as [Hv Hn].
      apply in_map_iff in Hv. destruct Hv as [x [<- Hx]].
      destruct (Hrows x Hx) as [_ [E | E]]; [rewrite E in Hn; discriminate |].
      simpl. rewrite E. simpl. eexists. reflexivity. }
  destruct Hacc as [vs ->]. simpl.
  assert (Hsum : exists gs, summarize (candidates lib) = Ok gs).
  { unfold summarize. apply mapM_all_ok. intros k _.
    unfold aggregate.
    destruct (strings_of_text (unique (map (@Artist Q) (group_rows (candidates lib) k))))
      as [l Hl].
    - apply Forall_forall. intros v Hv.
      apply unique_from_In in Hv. apply in_map_iff in Hv.
      destruct Hv as [y [<- Hy]].
      unfold group_rows in Hy. apply filter_In in Hy. destruct Hy as [Hy _].
      rewrite candidates_by_artist in Hy. apply in_flat_map in Hy.
      destruct Hy as [x [Hx Hy]].
      apply contribution_fields in Hy. destruct Hy as [-> _].
      apply (Hrows x Hx).
    - rewrite Hl. simpl. eexists. reflexivity. }
  destruct Hsum as [gs ->]. simpl. eexists. reflexivity.
Qed.

(** X13.  When the filter leaves no candidate, the result is the empty table. *)
Lemma no_candidates_empty_output (df : DataFrame) (out : list Recommendation) :
  snd (get_recommendations df) = Ok out ->
  candidates (library df) = [] -> out = [].
Proof.
  intros Hout Hnone.
  destruct out as [|r out']; [reflexivity |].
  destruct (output_row df _ r Hout (or_introl eq_refl)) as [x [_ [Hx _]]].
  rewrite Hnone in Hx. contradiction.
Qed.

End Conforming.

Example scenario_conforming : conforming Frames.scenario.
Proof.
  split; [| split].
  - intros c Hc. simpl in Hc.
    destruct Hc as [<- | [<- | [<- | []]]]; reflexivity.
  - intros a Ha. injection Ha as <-.
    repeat constructor; right; reflexivity.
  - intros s Hs. injection Hs as <-.
    split; [reflexivity |]. repeat constructor; right; reflexivity.
Qed.

(** * Further properties of the pipeline *)

(** ** Distinct cells *)

Lemma value_eqb_trans (a b c : value) :
  value_eqb a b = true -> value_eqb b c = true -> value_eqb a c = true.
Proof.
  destruct a as [|s|p], b as [|t|q], c as [|u|r]; simpl; try discriminate; try reflexivity.
  - intros H1 H2. apply String.eqb_eq in H1. apply String.eqb_eq in H2.
    subst. apply String.eqb_refl.
  - intros H1 H2. apply Qeq_bool_iff in H1. apply Qeq_bool_iff in H2.
    apply Qeq_bool_iff. rewrite H1. exact H2.
Qed.

Lemma value_eqb_text (s : string) (v : value) :
  value_eqb (VStr s) v = true -> v = VStr s.
Proof.
  destruct v as [|t|q]; simpl; try discriminate.
  intros H. apply String.eqb_eq in H. subst. reflexivity.
Qed.

Lemma existsb_value_eqb_In (v : value) (seen : list value) :
  In v seen -> existsb (value_eqb v) seen = true.
Proof.
  intros H. apply existsb_exists. exists v. split; [exact H | apply value_eqb_refl].
Qed.

Lemma unique_from_NoDup (l seen : list value) :
  NoDup (unique_from seen l)
  /\ forall v, In v (unique_from seen l) -> existsb (value_eqb v) seen = false.
Proof.
  revert seen. induction l as [|x l IH]; simpl; intros seen.
  - split; [constructor | intros v []].
  - destruct (existsb (value_eqb x) seen) eqn:E; [apply IH |].
    destruct (IH (x :: seen)) as [Hnd Hs]. split.
    + constructor; [| exact Hnd].
      intros Hin. specialize (Hs x Hin). simpl in Hs.
      rewrite value_eqb_refl in Hs. discriminate.
    + intros v [<- | Hv]; [exact E |].
      specialize (Hs v Hv). simpl in Hs.
      apply orb_false_iff in Hs. destruct Hs as [_ Hs]. exact Hs.
Qed.

Lemma unique_from_covers (l seen : list value) (v : value) :
  In v l ->
  existsb (value_eqb v) seen = true
  \/ exists v', In v' (unique_from seen l) /\ value_eqb v v' = true.
Proof.
  revert seen. induction l as [|x l IH]; simpl; intros seen Hv.
  - contradiction.
  - destruct (existsb (value_eqb x) seen) eqn:E.
    + destruct Hv as [-> | Hv]; [left; exact E | apply IH, Hv].
    + destruct Hv as [-> | Hv].
      * right. exists v. split; [left; reflexivity | apply value_eqb_refl].
      * destruct (IH (x :: seen) Hv) as [H | [v' [Hv' He]]].
        -- simpl in H. apply orb_true_iff in H. destruct H as [H | H].
           ++ right. exists x. split; [left; reflexivity | exact H].
           ++ left. exact H.
        -- right. exists v'. split; [right; exact Hv' | exact He].
Qed.

(** A text cell is among the distinct cells exactly when it is in the
    column. *)
Lemma unique_In_text (l : list value) (s : string) :
  In (VStr s) (unique l) <-> In (VStr s) l.
Proof.
  split.
  - apply unique_from_In.
  - intros H. destruct (unique_from_covers l [] (VStr s) H) as [H' | [v' [Hv' He]]].
    + discriminate.
    + apply value_eqb_text in He. subst v'. exact Hv'.
Qed.

Lemma Forall2_In_l {A B : Type} (R : A -> B -> Prop) (l : list A) (l' : list B) (a : A) :
  Forall2 R l l' -> In a l -> exists b, In b l' /\ R a b.
Proof.
  induction 1 as [|x y l l' Hxy _ IH]; simpl; intros Ha.
  - contradiction.
  - destruct Ha as [<- | Ha].
    + exists y. split; [left; reflexivity | exact Hxy].
    + destruct (IH Ha) as [b [Hb HR]]. exists b. split; [right; exact Hb | exact HR].
Qed.

Lemma strings_of_ok (vs : list value) (l : list string) :
  strings_of vs = Ok l -> vs = map VStr l.
Proof.
  revert l. induction vs as [|v vs IH]; simpl; intros l H.
  - injection H as <-. reflexivity.
  - destruct v as [|s|q]; try discriminate.
    apply bind_ok_inv in H. destruct H as [l' [Hl' H]].
    injection H as <-. simpl. f_equal. apply IH, Hl'.
Qed.

Lemma strings_of_raise_inv (vs : list value) (e : exception) :
  strings_of vs = Raise e -> exists v, In v vs /\ is_str v = false.
Proof.
  induction vs as [|v vs IH]; simpl; [discriminate |].
  destruct v as [|s|q].
  - intros _. exists VNull. split; [left; reflexivity | reflexivity].
  - destruct (strings_of vs) as [l | e'] eqn:E; simpl; [discriminate |].
    intros H. injection H as <-. destruct (IH eq_refl) as [v [Hv Hs]].
    exists v. split; [right; exact Hv | exact Hs].
  - intros _. exists (VNum q). split; [left; reflexivity | reflexivity].
Qed.

(** ** The rows of the output *)

Lemma re_split_from_no_comma {L : PyLib} (s : string) :
  forall (skip : bool) (p : string),
    In p (re_split_from skip s) ->
    str_forall (fun c => negb (Ascii.eqb c ","%char)) p = true.
Proof.
  induction s as [|c s IH]; simpl; intros skip p Hp.
  - destruct Hp as [<- | []]. reflexivity.
  - destruct (skip && is_space c).
    + apply (IH true p Hp).
    + destruct (Ascii.eqb c ","%char) eqn:Ec.
      * destruct Hp as [<- | Hp]; [reflexivity | apply (IH true p Hp)].
      * pose proof (IH false) as IHf.
        destruct (re_split_from false s) as [|q qs].
        -- destruct Hp as [<- | []]. simpl. rewrite Ec. reflexivity.
        -- destruct Hp as [<- | Hp].
           ++ simpl. rewrite Ec. simpl. apply IHf. left. reflexivity.
           ++ apply IHf. right. exact Hp.
Qed.

Section OutputRows.
Context {L : PyLib}.

Lemma candidate_origin (artist_df : list (Row Q)) (x : Row Q) :
  In x (candidates artist_df) ->
  exists a, In a artist_df /\ In x (explode_row a).
Proof.
  intros Hx. apply candidates_In in Hx. destruct Hx as [_ [_ Hx]].
  unfold expand in Hx. apply in_flat_map in Hx. exact Hx.
Qed.

Lemma explode_row_name (a x : Row Q) :
  In x (explode_row a) ->
  Similar_Artists x = VNull
  \/ exists s p, Similar_Artists a = VStr s /\ In p (re_split s)
                 /\ Similar_Artists x = VStr p.
Proof.
  unfold explode_row, str_split.
  destruct (Similar_Artists a) as [|s|q] eqn:Es.
  - intros [<- | []]. left. reflexivity.
  - destruct (re_split s) as [|p ps] eqn:Er.
    + intros [<- | []]. left. reflexivity.
    + intros H. apply in_map_iff in H. destruct H as [p' [<- Hp']].
      right. exists s, p'. repeat split. rewrite Er. exact Hp'.
  - intros [<- | []]. left. reflexivity.
Qed.

Lemma candidate_name (artist_df : list (Row Q)) (x : Row Q) :
  In x (candidates artist_df) ->
  exists a s p,
    In a artist_df /\ Similar_Artists a = VStr s /\ In p (re_split s)
    /\ Similar_Artists x = VStr p /\ p <> "".
Proof.
  intros Hx. destruct (candidate_origin _ _ Hx) as [a [Ha Hin]].
  apply candidates_In in Hx. destruct Hx as [Hnamed _].
  unfold named in Hnamed. apply andb_true_iff in Hnamed.
  destruct Hnamed as [Hna Hne].
  destruct (explode_row_name a x Hin) as [E | [s [p [Hs [Hp E]]]]].
  - rewrite E in Hna. discriminate.
  - exists a, s, p. repeat split; try assumption.
    intros ->. rewrite E in Hne. simpl in Hne. discriminate.
Qed.

Lemma candidate_artist_notna (df : DataFrame) (x : Row Q) :
  In x (candidates (library df)) -> notna (Artist x) = true.
Proof.
  intros Hx. destruct (candidate_origin _ _ Hx) as [a [Ha Hin]].
  apply explode_row_fields in Hin. destruct Hin as [-> _].
  apply (library_notna df a Ha).
Qed.

Lemma aggregated_keys (recs : list (Row Q)) (keys : list value) (gs : list Group) :
  Forall2 (fun k g => aggregate recs k = Ok g) keys gs ->
  map Missing_Artist (map scored gs) = keys.
Proof.
  induction 1 as [|k g keys gs Hkg _ IH]; simpl.
  - reflexivity.
  - apply aggregate_ok_inv in Hkg. destruct Hkg as [-> _].
    f_equal. exact IH.
Qed.

(** The names of the output are the distinct names of the candidates, up
    to order. *)
Lemma output_names_perm (df : DataFrame) (out : list Recommendation) :
  snd (get_recommendations df) = Ok out ->
  Permutation (map Missing_Artist out)
              (unique (map (@Similar_Artists Q) (candidates (library df)))).
Proof.
  unfold get_recommendations, library. simpl. intros H.
  apply recommend_ok_inv in H. destruct H as [gs [Hg ->]].
  apply groups_ok_inv in Hg. destruct Hg as [sel [Hsel Hsum]].
  rewrite Hsel. unfold summarize in Hsum. apply mapM_ok_inv in Hsum.
  apply perm_trans with (map Missing_Artist (map scored gs)).
  - apply Permutation_map, sort_values_perm.
  - rewrite (aggregated_keys _ _ _ Hsum). unfold group_keys. apply isort_perm.
Qed.

(** X1.  The output has one row for each distinct name among the surviving
    candidates: no name is listed twice, every listed name is the name of a
    candidate, and every candidate's name is listed. *)
Theorem output_names_exactly_once (df : DataFrame) (out : list Recommendation) :
  snd (get_recommendations df) = Ok out ->
  NoDup (map Missing_Artist out)
  /\ forall v, In v (map Missing_Artist out)
               <-> In v (map (@Similar_Artists Q) (candidates (library df))).
Proof.
  intros Hout. pose proof (output_names_perm df out Hout) as Hp. split.
  - apply (Permutation_NoDup (Permutation_sym Hp)).
    apply (unique_from_NoDup _ []).
  - intros v. split; intros Hv.
    + apply (Permutation_in _ Hp) in Hv. apply unique_from_In in Hv. exact Hv.
    + apply (Permutation_in _ (Permutation_sym Hp)).
      assert (Ht : exists p, v = VStr p).
      { apply in_map_iff in Hv. destruct Hv as [x [<- Hx]].
        destruct (candidate_name _ _ Hx) as [_ [_ [p [_ [_ [_ [E _]]]]]]].
        exists p. exact E. }
      destruct Ht as [p ->]. apply unique_In_text, Hv.
Qed.

(** X2.  Nothing but the two filters removes a suggestion: a name a retained
    library artist lists, that is not empty and whose key is not a key of the
    library, has a row in the output. *)
Theorem eligible_candidate_recommended
    (df : DataFrame) (out : list Recommendation) (a : Row Q) (s p : string) :
  snd (get_recommendations df) = Ok out ->
  In a (library df) -> Similar_Artists a = VStr s -> In p (re_split s) ->
  p <> "" -> ~ In (clean_key (VStr p)) (library_clean df) ->
  exists r, In r out /\ Missing_Artist r = VStr p.
Proof.
  intros Hout Ha Hs Hp Hne Hkey.
  assert (Hc : In (with_similar a (VStr p)) (candidates (library df))).
  { unfold candidates, fuzzy_filter. apply filter_In. split.
    - apply filter_In. split.
      + unfold expand. apply in_flat_map. exists a. split; [exact Ha |].
        unfold explode_row, str_split. rewrite Hs.
        destruct (re_split s) as [|q qs]; [contradiction |].
        apply in_map_iff. exists p. split; [reflexivity | exact Hp].
      + unfold named. simpl.
        destruct (String.eqb p "") eqn:E; [| reflexivity].
        apply String.eqb_eq in E. contradiction.
    - apply negb_true_iff. unfold suggested_key. simpl Similar_Artists.
      destruct (isin (clean_key (VStr p)) (library_keys (library df))) eqn:E;
        [| reflexivity].
      apply isin_In in E. contradiction. }
  pose proof (output_names_perm df out Hout) as Hperm.
  assert (Hin : In (VStr p) (map Missing_Artist out)).
  { apply (Permutation_in _ (Permutation_sym Hperm)).
    apply unique_In_text. apply in_map_iff.
    exists (with_similar a (VStr p)). split; [reflexivity | exact Hc]. }
  apply in_map_iff in Hin. destruct Hin as [r [Hr Hin]].
  exists r. split; assumption.
Qed.

(** X3.  Every row of the output counts at least one recommendation. *)
Theorem recommendation_count_positive
    (df : DataFrame) (out : list Recommendation) (r : Recommendation) :
  snd (get_recommendations df) = Ok out -> In r out ->
  (1 <= Recommendation_Count r)%nat.
Proof.
  intros Hout Hr.
  destruct (output_row df out r Hout Hr) as [x [g [Hx [Hagg ->]]]].
  apply aggregate_ok_inv in Hagg. destruct Hagg as [_ [Hc _]].
  simpl. rewrite Hc.
  assert (Hin : In (Artist x)
                   (filter notna (map (@Artist Q)
                      (group_rows (candidates (library df)) (Similar_Artists x))))).
  { apply filter_In. split; [| apply (candidate_artist_notna df x Hx)].
    apply in_map. unfold group_rows. apply filter_In.
    split; [exact Hx | apply value_eqb_refl]. }
  destruct (filter notna _) as [|y l]; [contradiction | simpl; lia].
Qed.

(** X5.  No name of the output contains a comma, and none is empty. *)
Theorem missing_artist_has_no_comma
    (df : DataFrame) (out : list Recommendation) (r : Recommendation) :
  snd (get_recommendations df) = Ok out -> In r out ->
  exists s, Missing_Artist r = VStr s
            /\ s <> ""
            /\ str_forall (fun c => negb (Ascii.eqb c ","%char)) s = true.
Proof.
  intros Hout Hr.
  destruct (output_row df out r Hout Hr) as [x [g [Hx [Hagg ->]]]].
  apply aggregate_ok_inv in Hagg. destruct Hagg as [Hk _].
  destruct (candidate_name _ _ Hx) as [a [s [p [_ [_ [Hp [E Hne]]]]]]].
  exists p. simpl. rewrite Hk. split; [exact E | split; [exact Hne |]].
  apply (re_split_from_no_comma s false p Hp).
Qed.

(** X4.  [Related_Library_Artists] lists, joined with a comma and a space, the
    artists of the rows of the group, each once. *)
Theorem related_artists_listing
    (df : DataFrame) (out : list Recommendation) (r : Recommendation) :
  snd (get_recommendations df) = Ok out -> In r out ->
  exists names,
    Related_Library_Artists r = String.concat ", " names
    /\ NoDup names
    /\ forall n, In n names
                 <-> exists x, In x (group_rows (candidates (library df))
                                                (Missing_Artist r))
                               /\ Artist x = VStr n.
Proof.
  intros Hout Hr.
  destruct (output_row df out r Hout Hr) as [x [g [_ [Hagg ->]]]].
  unfold aggregate in Hagg.
  apply bind_ok_inv in Hagg. destruct Hagg as [names [Hnames Hg]].
  injection Hg as <-. simpl.
  apply strings_of_ok in Hnames.
  exists names. split; [reflexivity | split].
  - apply (NoDup_map_inv VStr). rewrite <- Hnames.
    apply (unique_from_NoDup _ []).
  - intros n. split.
    + intros Hn. apply (in_map VStr) in Hn. rewrite <- Hnames in Hn.
      apply (proj1 (unique_In_text _ _)) in Hn. apply in_map_iff in Hn.
      destruct Hn as [y [Hy Hin]]. exists y. split; assumption.
    + intros [y [Hy Ey]].
      assert (Hin : In (VStr n) (map VStr names)).
      { rewrite <- Hnames. apply unique_In_text.
        apply in_map_iff. exists y. split; assumption. }
      apply in_map_iff in Hin. destruct Hin as [n' [E Hn']].
      injection E as ->. exact Hn'.
Qed.

End OutputRows.

(** ** The library *)

Lemma drop_duplicates_from_first {P : Type} (l : list (Row P)) :
  forall (seen : list value) (r : Row P),
    In r (drop_duplicates_from seen l) ->
    exists l1 l2,
      l = l1 ++ r :: l2
      /\ forall y, In y l1 -> value_eqb (Artist r) (Artist y) = false.
Proof.
  induction l as [|x l IH]; simpl; intros seen r Hr.
  - contradiction.
  - destruct (existsb (value_eqb (Artist x)) seen) eqn:E.
    + destruct (IH seen r Hr) as [l1 [l2 [-> Hl1]]].
      exists (x :: l1), l2. split; [reflexivity |].
      intros y [<- | Hy]; [| apply Hl1, Hy].
      destruct (value_eqb (Artist r) (Artist x)) eqn:Erx; [| reflexivity].
      apply existsb_exists in E. destruct E as [s [Hs Exs]].
      assert (Hseen : existsb (value_eqb (Artist r)) seen = true).
      { apply existsb_exists. exists s. split; [exact Hs |].
        apply value_eqb_trans with (Artist x); assumption. }
      pose proof (proj2 (drop_duplicates_from_distinct (l1 ++ r :: l2) seen) r Hr) as Hn.
      congruence.
    + destruct Hr as [<- | Hr].
      * exists [], l. split; [reflexivity | intros y []].
      * destruct (IH (Artist x :: seen) r Hr) as [l1 [l2 [-> Hl1]]].
        exists (x :: l1), l2. split; [reflexivity |].
        intros y [<- | Hy]; [| apply Hl1, Hy].
        pose proof (proj2 (drop_duplicates_from_distinct (l1 ++ r :: l2)
                             (Artist x :: seen)) r Hr) as Hn.
        simpl in Hn. apply orb_false_iff in Hn. destruct Hn as [Hn _]. exact Hn.
Qed.

Section Library.
Context {L : PyLib}.

(** X7.  Of the rows of one artist the first is the one that counts: every
    retained library artist is the coerced form of a row of the input that no
    earlier row shares its artist with. *)
Theorem first_occurrence_wins (df : DataFrame) (a : Row Q) :
  In a (library df) ->
  exists sel raw l1 l2,
    getitem_required (ensure_genres df) = Ok sel
    /\ rows sel = l1 ++ raw :: l2
    /\ a = coerce raw
    /\ forall y, In y l1 -> value_eqb (Artist raw) (Artist y) = false.
Proof.
  unfold library.
  destruct (getitem_required (ensure_genres df)) as [sel | e] eqn:G; [| contradiction].
  unfold artist_level. simpl. intros Ha.
  apply filter_In in Ha. destruct Ha as [Ha _].
  apply in_map_iff in Ha. destruct Ha as [raw [<- Hraw]].
  destruct (drop_duplicates_from_first (rows sel) [] raw Hraw) as [l1 [l2 [E Hl1]]].
  exists sel, raw, l1, l2. repeat split; assumption.
Qed.

(** X8.  The retained library artists are pairwise different, none has a null
    name, and none has null genres. *)
Theorem library_invariant (df : DataFrame) :
  distinct_artists (library df)
  /\ Forall (fun a => notna (Artist a) = true /\ notna (Artist_Genres a) = true)
            (library df).
Proof.
  split; [apply library_distinct |].
  apply Forall_forall. intros a Ha.
  split; [apply (library_notna df a Ha) |].
  destruct (library_row_origin df a Ha) as [sel [raw [_ [_ ->]]]].
  simpl. destruct (Artist_Genres raw); reflexivity.
Qed.

End Library.

Lemma first_occurrence_wins_witness :
  In (mkRow (VStr "Radiohead") (VStr "Thom Yorke") 100%Q (VStr "rock"))
     (library (L := AsciiLib.lib) MoreFrames.duplicated)
  /\ exists sel raw l1 l2,
       getitem_required (ensure_genres MoreFrames.duplicated) = Ok sel
       /\ rows sel = l1 ++ raw :: l2
       /\ mkRow (VStr "Radiohead") (VStr "Thom Yorke") 100%Q (VStr "rock")
          = coerce (L := AsciiLib.lib) raw
       /\ forall y, In y l1 -> value_eqb (Artist raw) (Artist y) = false.
Proof.
  assert (H : In (mkRow (VStr "Radiohead") (VStr "Thom Yorke") 100%Q (VStr "rock"))
                 (library (L := AsciiLib.lib) MoreFrames.duplicated)).
  { vm_compute. left. reflexivity. }
  split; [exact H |].
  exact (first_occurrence_wins (L := AsciiLib.lib) MoreFrames.duplicated _ H).
Defined.

(** The later row of a repeated artist leaves no trace in the library. *)
Example duplicated_library :
  library (L := AsciiLib.lib) MoreFrames.duplicated
  = [mkRow (VStr "Radiohead") (VStr "Thom Yorke") 100%Q (VStr "rock");
     mkRow (VStr "Portishead") (VStr "") 50%Q (VStr "trip hop")].
Proof. vm_compute. reflexivity. Qed.

(** ** More on failures *)

Section MoreFailures.
Context {L : PyLib}.


(** X12.  A [TypeError] is raised only when a retained library artist has a name
    that is not text. *)
Theorem type_error_needs_non_text_artist (df : DataFrame) :
  snd (get_recommendations df) = Raise TypeError ->
  exists a, In a (library df) /\ is_str (Artist a) = false.
Proof.
  change (snd (get_recommendations df)) with (recommend (ensure_genres df)).
  intros H. apply recommend_raise in H.
  unfold library. unfold groups in H.
  destruct (getitem_required (ensure_genres df)) as [sel | e] eqn:G.
  - simpl in H.
    destruct (str_accessor _) as [vs | e] eqn:S; simpl in H.
    + unfold summarize in H. apply mapM_raise in H. destruct H as [k [_ H]].
      unfold aggregate in H.
      destruct (strings_of _) as [l | e] eqn:E; simpl in H; [discriminate |].
      apply strings_of_raise_inv in E. destruct E as [v [Hv Hstr]].
      apply unique_from_In in Hv. apply in_map_iff in Hv.
      destruct Hv as [y [<- Hy]].
      unfold group_rows in Hy. apply filter_In in Hy. destruct Hy as [Hy _].
      destruct (candidate_origin _ _ Hy) as [a [Ha Hin]].
      apply explode_row_fields in Hin. destruct Hin as [E _].
      exists a. split; [exact Ha | rewrite <- E; exact Hstr].
    + injection H as ->. apply str_accessor_raise in S. discriminate.
  - simpl in H. injection H as ->.
    apply getitem_required_raise in G. destruct G as [G _]. discriminate.
Qed.

(** X14.  A second call on the frame the first call left behind changes nothing
    more and has the same outcome. *)
Theorem second_call_same (df : DataFrame) :
  fst (get_recommendations (fst (get_recommendations df)))
  = fst (get_recommendations df)
  /\ snd (get_recommendations (fst (get_recommendations df)))
     = snd (get_recommendations df).
Proof.
  unfold get_recommendations. simpl.
  assert (E : ensure_genres (ensure_genres df) = ensure_genres df).
  { unfold ensure_genres at 1.
    rewrite ensure_genres_has. simpl. rewrite orb_true_r. reflexivity. }
  rewrite E. split; reflexivity.
Qed.

End MoreFailures.


Lemma type_error_needs_non_text_artist_witness :
  snd (get_recommendations (L := AsciiLib.lib) MoreFrames.numeric_artist)
  = Raise TypeError
  /\ exists a, In a (library (L := AsciiLib.lib) MoreFrames.numeric_artist)
               /\ is_str (Artist a) = false.
Proof.
  assert (H : snd (get_recommendations (L := AsciiLib.lib) MoreFrames.numeric_artist)
              = Raise TypeError).
  { change (recommend (L := AsciiLib.lib) (ensure_genres MoreFrames.numeric_artist)
            = Raise TypeError).
    apply recommend_raise. vm_compute. reflexivity. }
  split; [exact H |].
  exact (type_error_needs_non_text_artist (L := AsciiLib.lib) MoreFrames.numeric_artist H).
Defined.

(** ** Genres *)

Lemma string_leb_trans (a b c : string) :
  String.leb a b = true -> String.leb b c = true -> String.leb a c = true.
Proof.
  unfold String.leb. revert b c.
  induction a as [|x a IH]; intros [|y b] [|z c]; simpl;
    try reflexivity; try discriminate.
  unfold Ascii.compare.
  destruct (N.compare_spec (N_of_ascii x) (N_of_ascii y)) as [Exy | Lxy | Gxy];
    destruct (N.compare_spec (N_of_ascii y) (N_of_ascii z)) as [Eyz | Lyz | Gyz];
    destruct (N.compare_spec (N_of_ascii x) (N_of_ascii z)) as [Exz | Lxz | Gxz];
    intros H1 H2; try reflexivity; try discriminate; try lia.
  apply (IH b c H1 H2).
Qed.

Section Genres.
Context {L : PyLib}.

Lemma set_add_In (acc : list string) (x g : string) :
  In g (set_add acc x) <-> In g acc \/ g = x.
Proof.
  unfold set_add. destruct (isin x acc) eqn:E.
  - split; [intros H; left; exact H |].
    intros [H | ->]; [exact H | apply isin_In, E].
  - rewrite in_app_iff. simpl. split.
    + intros [H | [<- | []]]; [left; exact H | right; reflexivity].
    + intros [H | ->]; [left; exact H | right; left; reflexivity].
Qed.

Lemma set_add_NoDup (acc : list string) (x : string) :
  NoDup acc -> NoDup (set_add acc x).
Proof.
  intros H. unfold set_add. destruct (isin x acc) eqn:E; [exact H |].
  apply NoDup_app; [exact H | constructor; [intros [] | constructor] |].
  intros y Hy [<- | []].
  apply isin_In in Hy. congruence.
Qed.

Lemma update_In (l acc : list string) (g : string) :
  In g (fold_left set_add l acc) <-> In g acc \/ In g l.
Proof.
  revert acc. induction l as [|x l IH]; simpl; intros acc.
  - tauto.
  - rewrite IH, set_add_In. split.
    + intros [[H | ->] | H]; [left; exact H | right; left; reflexivity | right; right; exact H].
    + intros [H | [<- | H]]; [left; left; exact H | left; right; reflexivity | right; exact H].
Qed.

Lemma update_NoDup (l acc : list string) :
  NoDup acc -> NoDup (fold_left set_add l acc).
Proof.
  revert acc. induction l as [|x l IH]; simpl; intros acc H.
  - exact H.
  - apply IH, set_add_NoDup, H.
Qed.

Lemma genre_tags_In (s g : string) :
  In g (genre_tags s)
  <-> exists piece, In piece (split_comma s) /\ g = strip piece /\ g <> "".
Proof.
  unfold genre_tags. rewrite filter_In, in_map_iff. split.
  - intros [[piece [<- Hp]] Hne]. exists piece. repeat split; [exact Hp |].
    intros E. rewrite E in Hne. discriminate.
  - intros [piece [Hp [-> Hne]]]. split.
    + exists piece. split; [reflexivity | exact Hp].
    + apply negb_true_iff. apply String.eqb_neq. exact Hne.
Qed.

(** The loop of lines 44-48, from any set [acc]. *)
Lemma genres_loop (series : list value) :
  forall acc : list string,
    NoDup acc ->
    let genres :=
      fold_left
        (fun acc g_str =>
           match g_str with
           | VStr s =>
               if negb (String.eqb (strip s) "")
               then fold_left set_add (genre_tags s) acc
               else acc
           | _ => acc
           end)
        series acc in
    NoDup genres
    /\ forall g, In g genres
                 <-> In g acc
                     \/ exists s, In (VStr s) series /\ strip s <> ""
                                  /\ In g (genre_tags s).
Proof.
  induction series as [|v series IH]; simpl; intros acc Hacc.
  - split; [exact Hacc |]. intros g. split; [tauto |].
    intros [H | [s [[] _]]]. exact H.
  - destruct v as [|s|q].
    + destruct (IH acc Hacc) as [Hnd Hin]. split; [exact Hnd |].
      intros g. rewrite Hin. split.
      * intros [H | [s [Hs H]]]; [left; exact H |].
        right. exists s. split; [right; exact Hs | exact H].
      * intros [H | [s [[E | Hs] H]]]; [left; exact H | discriminate |].
        right. exists s. split; assumption.
    + destruct (String.eqb (strip s) "") eqn:E; simpl.
      * destruct (IH acc Hacc) as [Hnd Hin]. split; [exact Hnd |].
        intros g. rewrite Hin. split.
        -- intros [H | [s' [Hs H]]]; [left; exact H |].
           right. exists s'. split; [right; exact Hs | exact H].
        -- intros [H | [s' [[E' | Hs] [Hne H]]]]; [left; exact H | |].
           ++ injection E' as ->. apply String.eqb_eq in E. contradiction.
           ++ right. exists s'. repeat split; assumption.
      * destruct (IH (fold_left set_add (genre_tags s) acc)
                     (update_NoDup _ _ Hacc)) as [Hnd Hin].
        split; [exact Hnd |].
        intros g. rewrite Hin, update_In. split.
        -- intros [[H | H] | [s' [Hs H]]].
           ++ left. exact H.
           ++ right. exists s. split; [left; reflexivity |].
              split; [apply String.eqb_neq, E | exact H].
           ++ right. exists s'. split; [right; exact Hs | exact H].
        -- intros [H | [s' [[E' | Hs] [Hne H]]]].
           ++ left. left. exact H.
           ++ injection E' as ->. left. right. exact H.
           ++ right. exists s'. repeat split; assumption.
    + destruct (IH acc Hacc) as [Hnd Hin]. split; [exact Hnd |].
      intros g. rewrite Hin. split.
      * intros [H | [s [Hs H]]]; [left; exact H |].
        right. exists s. split; [right; exact Hs | exact H].
      * intros [H | [s [[E | Hs] H]]]; [left; exact H | discriminate |].
        right. exists s. split; assumption.
Qed.

(** X15.  [get_unique_genres] joins, with a comma and a space, a list of tags
    that has no duplicates, is ordered by the lowercase form of the tags, and
    holds exactly the non-empty trimmed pieces of the non-blank strings of
    the series; nulls, numbers and blank strings add nothing. *)
Theorem genres_listing (genre_series : list value) :
  exists tags,
    get_unique_genres genre_series = String.concat ", " tags
    /\ NoDup tags
    /\ StronglySorted (fun x y => String.leb (str_lower x) (str_lower y) = true) tags
    /\ forall g, In g tags
                 <-> exists s piece,
                       In (VStr s) genre_series /\ strip s <> ""
                       /\ In piece (split_comma s)
                       /\ g = strip piece /\ g <> "".
Proof.
  unfold get_unique_genres.
  destruct (genres_loop genre_series [] (NoDup_nil _)) as [Hnd Hin].
  eexists. split; [reflexivity | split; [| split]].
  - apply (Permutation_NoDup (Permutation_sym (isort_perm _ _ _))). exact Hnd.
  - apply isort_sorted with (P := fun _ => True).
    + intros x y _ _. apply String.leb_total.
    + intros x y z. apply string_leb_trans.
    + apply Forall_forall. intros x _. exact I.
  - intros g. rewrite isort_In, Hin. split.
    + intros [[] | [s [Hs [Hne H]]]].
      apply genre_tags_In in H. destruct H as [piece [Hp [E Hg]]].
      exists s, piece. repeat split; assumption.
    + intros [s [piece [Hs [Hne [Hp [E Hg]]]]]].
      right. exists s. repeat split; [exact Hs | exact Hne |].
      apply genre_tags_In. exists piece. repeat split; assumption.
Qed.

Lemma get_unique_genres_blank (genre_series : list value) :
  (forall s, In (VStr s) genre_series -> strip s = "") ->
  get_unique_genres genre_series = "".
Proof.
  intros H. unfold get_unique_genres.
  assert (E : fold_left
                (fun acc g_str =>
                   match g_str with
                   | VStr s =>
                       if negb (String.eqb (strip s) "")
                       then fold_left set_add (genre_tags s) acc
                       else acc
                   | _ => acc
                   end)
                genre_series [] = []).
  { induction genre_series as [|v l IH]; simpl; [reflexivity |].
    destruct v as [|s|q].
    - apply IH. intros s Hs. apply H. right. exact Hs.
    - rewrite (H s (or_introl eq_refl)). simpl.
      apply IH. intros s' Hs. apply H. right. exact Hs.
    - apply IH. intros s Hs. apply H. right. exact Hs. }
  rewrite E. reflexivity.
Qed.

Lemma explode_row_genres (a x : Row Q) :
  In x (explode_row a) -> Artist_Genres x = Artist_Genres a.
Proof.
  unfold explode_row.
  destruct (str_split (Similar_Artists a)) as [[|p ps] |]; intros H.
  - destruct H as [<- | []]. reflexivity.
  - apply in_map_iff in H. destruct H as [s [<- _]]. reflexivity.
  - destruct H as [<- | []]. reflexivity.
Qed.

Lemma aggregate_ok_genres (recs : list (Row Q)) (k : value) (g : Group) :
  aggregate recs k = Ok g ->
  g_Related_Artist_Genres g
  = get_unique_genres (map (@Artist_Genres Q) (group_rows recs k)).
Proof.
  unfold aggregate. intros H.
  apply bind_ok_inv in H. destruct H as [related [_ H]].
  injection H as <-. reflexivity.
Qed.

Lemma lookup_app_new (c : string) (s : Series) (cols : list (string * Series)) :
  lookup c cols = None -> lookup c (cols ++ [(c, s)]) = Some s.
Proof.
  induction cols as [|[d t] cols IH]; simpl.
  - rewrite String.eqb_refl. reflexivity.
  - destruct (String.eqb c d); [discriminate | exact IH].
Qed.

(** X16.  When the input has no [Artist_Genres] column, the genres of every row
    of the output are the empty string. *)
Theorem absent_genres_column_empty_genres
    (df : DataFrame) (out : list Recommendation) (r : Recommendation) :
  has_column df "Artist_Genres" = false ->
  snd (get_recommendations df) = Ok out -> In r out ->
  Related_Artist_Genres r = "".
Proof.
  intros Habs Hout Hr.
  assert (Hlib : forall a, In a (library df) -> Artist_Genres a = VStr "").
  { intros a Ha.
    destruct (library_row_origin df a Ha) as [sel [raw [Hsel [Hraw ->]]]].
    destruct (getitem_required_ok (ensure_genres df)
                (getitem_required_ok_inv _ _ Hsel))
      as [ca [cs [ct [cg [_ [_ [_ [Hg Hok]]]]]]]].
    unfold ensure_genres in Hg. rewrite Habs in Hg.
    unfold setitem_scalar in Hg. simpl in Hg.
    apply has_column_lookup in Habs.
    rewrite (assign_absent _ _ _ Habs), (lookup_app_new _ _ _ Habs) in Hg.
    injection Hg as <-.
    rewrite Hsel in Hok. injection Hok as ->. simpl in Hraw.
    apply in_map_iff in Hraw. destruct Hraw as [i [<- _]]. simpl.
    unfold cell at 1. simpl.
    assert (P : nth i (repeat (VStr "") (index_len df)) VNull = VStr ""
                \/ nth i (repeat (VStr "") (index_len df)) VNull = VNull).
    { apply (nth_Forall (fun v => v = VStr "" \/ v = VNull)).
      - apply Forall_forall. intros v Hv. left. apply (repeat_spec _ _ _ Hv).
      - right. reflexivity. }
    destruct P as [-> | ->]; reflexivity. }
  destruct (output_row df out r Hout Hr) as [x [g [_ [Hagg ->]]]].
  simpl. rewrite (aggregate_ok_genres _ _ _ Hagg).
  apply get_unique_genres_blank. intros s Hs.
  apply in_map_iff in Hs. destruct Hs as [y [Ey Hy]].
  unfold group_rows in Hy. apply filter_In in Hy. destruct Hy as [Hy _].
  destruct (candidate_origin _ _ Hy) as [a [Ha Hin]].
  apply explode_row_genres in Hin. rewrite Hin, (Hlib a Ha) in Ey.
  injection Ey as <-. reflexivity.
Qed.

End Genres.

Example genres_merged :
  get_unique_genres (L := AsciiLib.lib) [VStr "electronic"; VStr "art pop, electronic"]
  = "art pop, electronic".
Proof. reflexivity. Qed.

(** ** The split of line 33 *)

Section Split.
Context {L : PyLib}.

Lemma re_split_from_leading (s : string) :
  forall skip : bool,
    (skip = true -> leading_space (hd "" (re_split_from skip s)) = false)
    /\ Forall (fun q => leading_space q = false) (tl (re_split_from skip s)).
Proof.
  induction s as [|c s IH]; simpl; intros skip.
  - split; [reflexivity | constructor].
  - destruct (skip && is_space c) eqn:E.
    + destruct (IH true) as [Hh Ht]. split; [intros _; apply Hh; reflexivity | exact Ht].
    + destruct (Ascii.eqb c ","%char).
      * simpl. split; [reflexivity |].
        destruct (IH true) as [Hh Ht].
        destruct (re_split_from true s) as [|q qs]; [constructor |].
        constructor; [apply Hh; reflexivity | exact Ht].
      * destruct (IH false) as [_ Ht].
        destruct (re_split_from false s) as [|q qs]; simpl.
        -- split; [| constructor]. intros ->. simpl in E. exact E.
        -- split; [| exact Ht]. intros ->. simpl in E. exact E.
Qed.

(** X6.  The whitespace that follows a comma belongs to the separator: no
    entry of a split list but the first starts with whitespace. *)
Theorem split_entries_no_leading_space (s : string) :
  Forall (fun q => leading_space q = false) (tl (re_split s)).
Proof.
  apply (proj2 (re_split_from_leading s false)).
Qed.

End Split.

(** ** More on scores *)

Lemma sum_from_nonneg (l : list Q) (acc : Q) :
  (0 <= acc)%Q -> Forall (fun q => (0 <= q)%Q) l -> (0 <= fold_left Qplus l acc)%Q.
Proof.
  intros Hacc Hl. revert acc Hacc.
  induction Hl as [|q l Hq _ IH]; simpl; intros acc Hacc.
  - exact Hacc.
  - apply IH. apply (Qplus_le_compat 0 acc 0 q Hacc Hq).
Qed.

Section MoreScores.
Context {L : PyLib}.

Lemma group_row_plays (df : DataFrame) (k : value) (q : Q) :
  In q (map (@Total_Plays Q) (group_rows (candidates (library df)) k)) ->
  exists a, In a (library df) /\ q = Total_Plays a.
Proof.
  intros Hq. apply in_map_iff in Hq. destruct Hq as [y [<- Hy]].
  unfold group_rows in Hy. apply filter_In in Hy. destruct Hy as [Hy _].
  destruct (candidate_origin _ _ Hy) as [a [Ha Hin]].
  apply explode_row_fields in Hin. destruct Hin as [_ E].
  exists a. split; [exact Ha | exact E].
Qed.

(** X17.  When no retained library artist has a negative play count, the total
    of every row of the output is at least 0 and its score is a real number
    at least 0, never [NaN] or [-inf]. *)
Theorem nonnegative_plays_score
    (df : DataFrame) (out : list Recommendation) (r : Recommendation) :
  snd (get_recommendations df) = Ok out -> In r out ->
  (forall a, In a (library df) -> (0 <= Total_Plays a)%Q) ->
  (0 <= Related_Library_Artists_Total_Play_Count r)%Q
  /\ exists x, Priority_Score r = Fin x /\ (0 <= x)%R.
Proof.
  intros Hout Hr Hplays.
  destruct (output_row df out r Hout Hr) as [x [g [_ [Hagg ->]]]].
  apply aggregate_ok_inv in Hagg. destruct Hagg as [_ [_ Ht]].
  simpl.
  assert (Hnn : (0 <= g_Total_Play_Count g)%Q).
  { rewrite Ht. unfold sum. apply sum_from_nonneg; [apply Qle_refl |].
    apply Forall_forall. intros q Hq.
    destruct (group_row_plays df _ q Hq) as [a [Ha ->]]. apply Hplays, Ha. }
  split; [exact Hnn |].
  destruct (score_nonneg_total (g_Recommendation_Count g) _ Hnn) as [E P].
  eexists. split; [exact E |].
  apply Rmult_le_pos; [apply pos_INR | exact P].
Qed.

(** X18.  The score at the edges of the logarithm: a total above -1 gives a real
    score, a total of -1 gives [-inf], and a total below -1 gives [NaN]. *)
Theorem score_edge_cases
    (df : DataFrame) (out : list Recommendation) (r : Recommendation) :
  snd (get_recommendations df) = Ok out -> In r out ->
  ((-1 < Q2R (Related_Library_Artists_Total_Play_Count r))%R ->
   exists x, Priority_Score r = Fin x)
  /\ (Q2R (Related_Library_Artists_Total_Play_Count r) = (-1)%R ->
      Priority_Score r = NegInf)
  /\ ((Q2R (Related_Library_Artists_Total_Play_Count r) < -1)%R ->
      Priority_Score r = NaN).
Proof.
  intros Hout Hr.
  destruct (output_row df out r Hout Hr) as [x [g [Hx [Hagg ->]]]].
  apply aggregate_ok_inv in Hagg. destruct Hagg as [_ [Hc _]].
  assert (Hpos : exists n, g_Recommendation_Count g = S n).
  { rewrite Hc.
    assert (Hin : In (Artist x)
                     (filter notna (map (@Artist Q)
                        (group_rows (candidates (library df)) (Similar_Artists x))))).
    { apply filter_In. split; [| apply (candidate_artist_notna df x Hx)].
      apply in_map. unfold group_rows. apply filter_In.
      split; [exact Hx | apply value_eqb_refl]. }
    destruct (filter notna _) as [|y l]; [contradiction |].
    exists (List.length l). reflexivity. }
  destruct Hpos as [n Hn].
  simpl. unfold score, np_log10. rewrite Hn.
  split; [| split]; intros H.
  - destruct (Rlt_dec 0 (Q2R (g_Total_Play_Count g) + 1)) as [_ | N]; [| lra].
    eexists. reflexivity.
  - destruct (Rlt_dec 0 (Q2R (g_Total_Play_Count g) + 1)) as [P | _]; [lra |].
    destruct (Req_dec_T (Q2R (g_Total_Play_Count g) + 1) 0) as [_ | N]; [| lra].
    reflexivity.
  - destruct (Rlt_dec 0 (Q2R (g_Total_Play_Count g) + 1)) as [P | _]; [lra |].
    destruct (Req_dec_T (Q2R (g_Total_Play_Count g) + 1) 0) as [E | _]; [lra |].
    reflexivity.
Qed.

End MoreScores.

(** ** The further properties on concrete frames *)

Lemma output_names_exactly_once_witness :
  snd (get_recommendations (L := AsciiLib.lib) Frames.scenario)
  = Ok (sort_values [scored Frames.thom_yorke])
  /\ NoDup (map Missing_Artist (sort_values [scored Frames.thom_yorke])).
Proof.
  split; [exact scenario_output |].
  exact (proj1 (output_names_exactly_once (L := AsciiLib.lib)
                  Frames.scenario _ scenario_output)).
Defined.

Lemma eligible_candidate_recommended_witness :
  exists r, In r (sort_values [scored Frames.thom_yorke])
            /\ Missing_Artist r = VStr "Thom Yorke".
Proof.
  apply (eligible_candidate_recommended (L := AsciiLib.lib) Frames.scenario
           (sort_values [scored Frames.thom_yorke])
           (mkRow (VStr "Radiohead") (VStr "Thom Yorke, Portishead") 100%Q (VStr "rock"))
           "Thom Yorke, Portishead" "Thom Yorke").
  - exact scenario_output.
  - rewrite scenario_library. left. reflexivity.
  - reflexivity.
  - vm_compute. left. reflexivity.
  - discriminate.
  - vm_compute. intros [H | [H | []]]; discriminate H.
Defined.

Lemma recommendation_count_positive_witness :
  (1 <= Recommendation_Count (scored Frames.thom_yorke))%nat.
Proof.
  exact (recommendation_count_positive (L := AsciiLib.lib)
           Frames.scenario _ _ scenario_output scenario_row).
Defined.

Lemma missing_artist_has_no_comma_witness :
  exists s, Missing_Artist (scored Frames.thom_yorke) = VStr s
            /\ s <> ""
            /\ str_forall (fun c => negb (Ascii.eqb c ","%char)) s = true.
Proof.
  exact (missing_artist_has_no_comma (L := AsciiLib.lib)
           Frames.scenario _ _ scenario_output scenario_row).
Defined.

Lemma related_artists_listing_witness :
  exists names,
    Related_Library_Artists (scored Frames.thom_yorke) = String.concat ", " names
    /\ NoDup names.
Proof.
  destruct (related_artists_listing (L := AsciiLib.lib)
              Frames.scenario _ _ scenario_output scenario_row)
    as [names [E [Hnd _]]].
  exists names. split; [exact E | exact Hnd].
Defined.

Lemma no_genres_output :
  snd (get_recommendations (L := AsciiLib.lib) Frames.no_genres)
  = Ok (sort_values [scored (mkGroup (VStr "Thom Yorke") "Radiohead" 1 100 "")]).
Proof.
  unfold get_recommendations. simpl snd.
  refine (recommend_of_groups (L := AsciiLib.lib) _
            [mkGroup (VStr "Thom Yorke") "Radiohead" 1 100 ""] _).
  vm_compute. reflexivity.
Qed.

Lemma absent_genres_column_empty_genres_witness :
  has_column Frames.no_genres "Artist_Genres" = false
  /\ Related_Artist_Genres (scored (mkGroup (VStr "Thom Yorke") "Radiohead" 1 100 "")) = "".
Proof.
  split; [reflexivity |].
  refine (absent_genres_column_empty_genres (L := AsciiLib.lib)
            Frames.no_genres _ _ eq_refl no_genres_output _).
  apply sort_values_In. left. reflexivity.
Defined.

Lemma conforming_never_raises_witness :
  conforming Frames.scenario
  /\ exists out, snd (get_recommendations (L := AsciiLib.lib) Frames.scenario) = Ok out.
Proof.
  split; [exact scenario_conforming |].
  exact (conforming_never_raises (L := AsciiLib.lib) Frames.scenario scenario_conforming).
Defined.

Lemma all_owned_output :
  snd (get_recommendations (L := AsciiLib.lib) MoreFrames.all_owned)
  = Ok (sort_values (map scored [])).
Proof.
  unfold get_recommendations. simpl snd.
  apply (recommend_of_groups (L := AsciiLib.lib)).
  vm_compute. reflexivity.
Qed.

Lemma no_candidates_empty_output_witness :
  candidates (L := AsciiLib.lib) (library (L := AsciiLib.lib) MoreFrames.all_owned) = []
  /\ sort_values (map scored []) = [].
Proof.
  assert (H : candidates (L := AsciiLib.lib)
                (library (L := AsciiLib.lib) MoreFrames.all_owned) = [])
    by (vm_compute; reflexivity).
  split; [exact H |].
  exact (no_candidates_empty_output (L := AsciiLib.lib)
           MoreFrames.all_owned _ all_owned_output H).
Defined.

Lemma key_error_iff_column_absent_witness :
  snd (get_recommendations (L := AsciiLib.lib) MoreFrames.no_plays)
  = Raise (KeyError ["Total_Plays"])
  /\ ["Total_Plays"]
     = filter (fun c => negb (has_column MoreFrames.no_plays c))
              ["Artist"; "Similar_Artists"; "Total_Plays"].
Proof.
  assert (H : snd (get_recommendations (L := AsciiLib.lib) MoreFrames.no_plays)
              = Raise (KeyError ["Total_Plays"])).
  { change (recommend (L := AsciiLib.lib) (ensure_genres MoreFrames.no_plays)
            = Raise (KeyError ["Total_Plays"])).
    apply recommend_raise. vm_compute. reflexivity. }
  split; [exact H |].
  exact (proj2 (key_error_iff_column_absent (L := AsciiLib.lib) MoreFrames.no_plays) _ H).
Defined.

Lemma nonnegative_plays_score_witness :
  (forall a, In a (library (L := AsciiLib.lib) Frames.scenario) ->
             (0 <= Total_Plays a)%Q)
  /\ exists x, Priority_Score (scored Frames.thom_yorke) = Fin x /\ (0 <= x)%R.
Proof.
  assert (H : forall a, In a (library (L := AsciiLib.lib) Frames.scenario) ->
                        (0 <= Total_Plays a)%Q).
  { intros a Ha. rewrite scenario_library in Ha.
    destruct Ha as [<- | [<- | []]]; simpl; unfold Qle; simpl; lia. }
  split; [exact H |].
  exact (proj2 (nonnegative_plays_score (L := AsciiLib.lib)
                  Frames.scenario _ _ scenario_output scenario_row H)).
Defined.

Lemma score_edge_cases_witness :
  exists x, Priority_Score (scored Frames.thom_yorke) = Fin x.
Proof.
  apply (proj1 (score_edge_cases (L := AsciiLib.lib)
                  Frames.scenario _ _ scenario_output scenario_row)).
  simpl. unfold Q2R. simpl. lra.
Defined.
